(** * WebP to PNG converter: a shallow embedding of [main.go]

    The program reads a file, decodes it as WebP (falling back to JPEG),
    writes it back as PNG, and can do so for every [.webp] entry of a
    directory while collecting the failures in a report.

    The embedding threads an explicit [World] (file contents, open handles,
    the two output streams and a log of the library calls made) through the
    three functions of the program.  The image codecs, the path joining of
    [path/filepath] and the failures of the operating system are not part of
    the repository: they are the fields of a [Platform], over which every
    statement is quantified. *)

From Stdlib Require Import String Ascii List Lia.
From Stdlib Require Import Init.Byte.
From stdpp Require Import gmap strings list pretty.

Open Scope string_scope.
Open Scope list_scope.

(** ** Go strings: the pieces of [strings] and [path/filepath] in use *)

Module GoString.

(** [s[i:]] *)
Definition from (i : nat) (s : string) : string :=
  String.substring i (String.length s - i) s.

(** [s[:i]] *)
Definition upto (i : nat) (s : string) : string :=
  String.substring 0 i s.

(** One byte of [strings.ToLower]: ['A'..'Z'] move to ['a'..'z']. *)
Definition lower_byte (c : ascii) : ascii :=
  let n := nat_of_ascii c in
  if ((65 <=? n) && (n <=? 90))%nat then ascii_of_nat (n + 32) else c.

(** [strings.ToLower], byte by byte.  Bytes from [0x80] up are passed
    through: the library also rewrites multi-byte runes, but no rune
    outside ASCII lowers to one of the bytes of [".webp"], so the suffix
    test the program makes on the result reads the same. *)
Fixpoint ToLower (s : string) : string :=
  match s with
  | EmptyString => EmptyString
  | String c s' => String (lower_byte c) (ToLower s')
  end.

(** [strings.HasSuffix]:
    [len(s) >= len(suffix) && s[len(s)-len(suffix):] == suffix]. *)
Definition HasSuffix (s suffix : string) : bool :=
  (String.length suffix <=? String.length s)%nat
  && String.eqb (from (String.length s - String.length suffix) s) suffix.

(** [strings.TrimSuffix]: [s[:len(s)-len(suffix)]] when [s] has the
    suffix, [s] otherwise. *)
Definition TrimSuffix (s suffix : string) : string :=
  if HasSuffix s suffix
  then upto (String.length s - String.length suffix) s
  else s.

(** [os.IsPathSeparator] on this platform (macOS): the slash. *)
Definition IsPathSeparator (c : ascii) : bool := Ascii.eqb c "/"%char.

(** The loop of [filepath.Ext]:
    [for i := len(path)-1; i >= 0 && !IsPathSeparator(path[i]); i--]
    with [n = i + 1]. *)
Fixpoint Ext_loop (path : string) (n : nat) : string :=
  match n with
  | O => ""
  | S i =>
      match String.get i path with
      | Some c =>
          if IsPathSeparator c then ""
          else if Ascii.eqb c "."%char then from i path
          else Ext_loop path i
      | None => ""
      end
  end.

Definition Ext (path : string) : string := Ext_loop path (String.length path).

End GoString.

Import GoString.

(** ** Go errors

    An [error] is seen by this program only through its message.
    [fmt.Errorf] with a [%w] verb builds a wrapping error that keeps the
    formatted text and the error it wraps. *)

Inductive error : Type :=
| errorString (s : string)
| wrapError (msg : string) (err : error).

Definition Error (e : error) : string :=
  match e with
  | errorString s => s
  | wrapError msg _ => msg
  end.

(** [fmt.Errorf(text + "%w", err)]: every call of the program has this
    shape. *)
Definition Errorf_w (text : string) (err : error) : error :=
  wrapError (text +:+ Error err) err.

(** [*fs.PathError]: "op path: reason". *)
Definition PathError (op path reason : string) : error :=
  errorString (op +:+ " " +:+ path +:+ ": " +:+ reason).

Definition ENOENT : string := "no such file or directory".

(** The texts the program puts in front of the errors it wraps. *)
Definition msgRead : string := "не удалось прочитать файл: ".
Definition msgDecode : string :=
  "не удалось декодировать изображение (пробовались форматы WebP и JPEG): ".
Definition msgCreate : string := "не удалось создать выходной файл: ".
Definition msgEncode : string := "не удалось закодировать PNG: ".
Definition msgSync : string := "не удалось синхронизировать файл: ".
Definition msgReadDir : string := "не удалось прочитать директорию: ".
Definition msgMkdir : string := "не удалось создать выходную директорию: ".

(** ** The world

    Files are kept by path, a path being the string the program passes to
    the system: two different strings are two different files (no links,
    no [.] or [..] steps). *)

(** Library calls, as they are logged. *)
Inductive Call : Type :=
| ReadFile (path : string)
| WebpDecode (data : list byte)
| JpegDecode (data : list byte)
| Create (path : string)
| PngEncode (path : string)
| Close (path : string)
| Remove (path : string)
| Sync (path : string)
| Stat (path : string)
| ReadDir (path : string)
| MkdirAll (path : string).

Record World : Type := mkWorld {
  files : gmap string (list byte);   (* regular files and their contents *)
  dirs : gset string;                (* directories known to exist *)
  handles : gset string;             (* paths with an open [*os.File] *)
  log : list (Call * bool);          (* calls made so far, with success *)
  stdout : list string;              (* one element per [fmt.Printf] *)
  stderr : list string               (* one per [fmt.Fprintf(os.Stderr, _)] *)
}.

Definition set_files (f : gmap string (list byte) → gmap string (list byte))
    (w : World) : World :=
  mkWorld (f (files w)) (dirs w) (handles w) (log w) (stdout w) (stderr w).
Definition set_dirs (f : gset string → gset string) (w : World) : World :=
  mkWorld (files w) (f (dirs w)) (handles w) (log w) (stdout w) (stderr w).
Definition set_handles (f : gset string → gset string) (w : World) : World :=
  mkWorld (files w) (dirs w) (f (handles w)) (log w) (stdout w) (stderr w).
Definition logged (c : Call) (ok : bool) (w : World) : World :=
  mkWorld (files w) (dirs w) (handles w) (log w ++ [(c, ok)]) (stdout w) (stderr w).
Definition Printf (s : string) (w : World) : World :=
  mkWorld (files w) (dirs w) (handles w) (log w) (stdout w ++ [s]) (stderr w).
Definition Eprintf (s : string) (w : World) : World :=
  mkWorld (files w) (dirs w) (handles w) (log w) (stdout w) (stderr w ++ [s]).

Record DirEntry : Type := mkDirEntry { Name : string; IsDir : bool }.

Record FileInfo : Type := mkFileInfo { Size : nat; Mode_IsDir : bool }.

(** What the program is linked against and run on.  A fault oracle sees the
    whole world, log included, so a call may fail at one moment and succeed
    at another. *)
Record Platform (image : Type) : Type := mkPlatform {
  webp_Decode : list byte → image + error;
  jpeg_Decode : list byte → image + error;
  (** the bytes [png.Encode] produces, or the error of the encoder itself *)
  png_bytes : image → list byte + error;
  filepath_Join : string → string → string;
  filepath_Base : string → string;
  read_fault : World → string → option error;
  create_fault : World → string → option error;
  (** a failing write gets only the first [n] bytes through *)
  write_fault : World → string → list byte → option (nat * error);
  sync_fault : World → string → option error;
  remove_fault : World → string → option error;
  stat_fault : World → string → option error;
  mkdir_fault : World → string → option error;
  read_dir : World → string → list DirEntry + error
}.

Arguments webp_Decode {image} _ _.
Arguments jpeg_Decode {image} _ _.
Arguments png_bytes {image} _ _.
Arguments filepath_Join {image} _ _ _.
Arguments filepath_Base {image} _ _.
Arguments read_fault {image} _ _ _.
Arguments create_fault {image} _ _ _.
Arguments write_fault {image} _ _ _ _.
Arguments sync_fault {image} _ _ _.
Arguments remove_fault {image} _ _ _.
Arguments stat_fault {image} _ _ _.
Arguments mkdir_fault {image} _ _ _.
Arguments read_dir {image} _ _ _.

Definition is_inl {A B : Type} (r : A + B) : bool :=
  match r with inl _ => true | inr _ => false end.

(** The newline of the format strings. *)
Definition nl : string := String (ascii_of_nat 10) "".

(** [%d] of a length or a counter (Go [int]s that count files held in
    memory: they do not wrap). *)
Definition fmt_d (n : nat) : string := pretty n.

(** ** The program *)

Record conversionError : Type :=
  mkConversionError { fileName : string; errorMsg : string }.

(** The variables of the loop of [convertDirectory]. *)
Record Batch : Type := mkBatch {
  world : World;
  errors : list conversionError;
  successCount : nat
}.

Section Program.

Context {image : Type} (P : Platform image).

(** *** The library calls, on the world *)

Definition os_ReadFile (path : string) (w : World) : World * (list byte + error) :=
  match read_fault P w path with
  | Some e => (logged (ReadFile path) false w, inr e)
  | None =>
      match files w !! path with
      | Some data => (logged (ReadFile path) true w, inl data)
      | None => (logged (ReadFile path) false w, inr (PathError "open" path ENOENT))
      end
  end.

Definition call_webp_Decode (data : list byte) (w : World) : World * (image + error) :=
  let r := webp_Decode P data in
  (logged (WebpDecode data) (is_inl r) w, r).

Definition call_jpeg_Decode (data : list byte) (w : World) : World * (image + error) :=
  let r := jpeg_Decode P data in
  (logged (JpegDecode data) (is_inl r) w, r).

(** [os.Create]: the file is created or truncated and a handle opened. *)
Definition os_Create (path : string) (w : World) : World * option error :=
  match create_fault P w path with
  | Some e => (logged (Create path) false w, Some e)
  | None =>
      (logged (Create path) true
         (set_handles (λ h, {[path]} ∪ h) (set_files (λ f, <[path := []]> f) w)),
       None)
  end.

(** Bytes written through an open handle land at the end of the file. *)
Definition File_Write (path : string) (bs : list byte) (w : World) : World :=
  set_files (λ f, alter (λ old, old ++ bs) path f) w.

(** [png.Encode(outputFile, img)]: the encoder refuses the image, or
    produces its bytes, which go to the file: all of them, or the first [n]
    when a write fails. *)
Definition call_png_Encode (path : string) (img : image) (w : World) : World * option error :=
  match png_bytes P img with
  | inr e => (logged (PngEncode path) false w, Some e)
  | inl bs =>
      match write_fault P w path bs with
      | Some (n, e) => (logged (PngEncode path) false (File_Write path (take n bs) w), Some e)
      | None => (logged (PngEncode path) true (File_Write path bs w), None)
      end
  end.

(** [Close] of an [os.File]; the program never looks at its result. *)
Definition File_Close (path : string) (w : World) : World :=
  logged (Close path) (bool_decide (path ∈ handles w))
    (set_handles (λ h, h ∖ {[path]}) w).

Definition os_Remove (path : string) (w : World) : World * option error :=
  match remove_fault P w path with
  | Some e => (logged (Remove path) false w, Some e)
  | None =>
      match files w !! path with
      | Some _ => (logged (Remove path) true (set_files (λ f, delete path f) w), None)
      | None => (logged (Remove path) false w, Some (PathError "remove" path ENOENT))
      end
  end.

Definition File_Sync (path : string) (w : World) : World * option error :=
  match sync_fault P w path with
  | Some e => (logged (Sync path) false w, Some e)
  | None => (logged (Sync path) true w, None)
  end.

Definition os_Stat (path : string) (w : World) : World * (FileInfo + error) :=
  match stat_fault P w path with
  | Some e => (logged (Stat path) false w, inr e)
  | None =>
      match files w !! path with
      | Some data => (logged (Stat path) true w, inl (mkFileInfo (length data) false))
      | None =>
          if bool_decide (path ∈ dirs w)
          then (logged (Stat path) true w, inl (mkFileInfo 0 true))
          else (logged (Stat path) false w, inr (PathError "stat" path ENOENT))
      end
  end.

Definition os_ReadDir (path : string) (w : World) : World * (list DirEntry + error) :=
  let r := read_dir P w path in
  (logged (ReadDir path) (is_inl r) w, r).

Definition os_MkdirAll (path : string) (w : World) : World * option error :=
  match mkdir_fault P w path with
  | Some e => (logged (MkdirAll path) false w, Some e)
  | None => (logged (MkdirAll path) true (set_dirs (λ d, {[path]} ∪ d) w), None)
  end.

(** [fmt.Fprintf(reportFile, _)]; the program drops its result, so a
    write that fails leaves the file short and the run goes on. *)
Definition Fprintf (path : string) (s : string) (w : World) : World :=
  let bs := list_byte_of_string s in
  match write_fault P w path bs with
  | Some (n, _) => File_Write path (take n bs) w
  | None => File_Write path bs w
  end.

(** *** [convertWebPToPNG] *)

Definition convertWebPToPNG (inputPath outputPath : string) (w : World)
    : World * option error :=
  let '(w, r) := os_ReadFile inputPath w in
  match r with
  | inr err => (w, Some (Errorf_w msgRead err))
  | inl inputData =>
      let '(w, r) := call_webp_Decode inputData w in
      let '(w, r) :=
        match r with
        | inl img => (w, inl img)
        | inr _ => call_jpeg_Decode inputData w
        end in
      match r with
      | inr err => (w, Some (Errorf_w msgDecode err))
      | inl img =>
          let '(w, r) := os_Create outputPath w in
          match r with
          | Some err => (w, Some (Errorf_w msgCreate err))
          | None =>
              (* defer outputFile.Close() *)
              let '(w, r) := call_png_Encode outputPath img w in
              match r with
              | Some err =>
                  let w := File_Close outputPath w in
                  let '(w, _) := os_Remove outputPath w in
                  (File_Close outputPath w, Some (Errorf_w msgEncode err))
              | None =>
                  let '(w, r) := File_Sync outputPath w in
                  match r with
                  | Some err => (File_Close outputPath w, Some (Errorf_w msgSync err))
                  | None => (File_Close outputPath w, None)
                  end
              end
          end
      end
  end.

(** Lines 30-37: the image is decoded as WebP and, when that fails, as
    JPEG. *)
Definition decodeImage (inputData : list byte) (w : World) : World * (image + error) :=
  let '(w, r) := call_webp_Decode inputData w in
  match r with
  | inl img => (w, inl img)
  | inr _ => call_jpeg_Decode inputData w
  end.

(** *** [convertDirectory] *)

(** The body of the first loop: one entry of the listing. *)
Definition collect (webpFiles : list string) (entry : DirEntry) : list string :=
  if negb (IsDir entry) then
    let name := ToLower (Name entry) in
    if HasSuffix name ".webp" then webpFiles ++ [Name entry] else webpFiles
  else webpFiles.

(** The first loop, lines 70-78. *)
Definition listWebpFiles (entries : list DirEntry) : list string :=
  fold_left collect entries [].

Definition pngNameOf (webpFile : string) : string :=
  TrimSuffix webpFile (Ext webpFile) +:+ ".png".

Definition outputPathOf (inputDir outputDir webpFile : string) : string :=
  if negb (String.eqb outputDir "")
  then filepath_Join P outputDir (pngNameOf webpFile)
  else filepath_Join P inputDir (pngNameOf webpFile).

(** The body of the second loop: one eligible file. *)
Definition processFile (inputDir outputDir : string) (b : Batch) (webpFile : string)
    : Batch :=
  let inputPath := filepath_Join P inputDir webpFile in
  let pngName := pngNameOf webpFile in
  let outputPath := outputPathOf inputDir outputDir webpFile in
  let '(w, r) := convertWebPToPNG inputPath outputPath (world b) in
  match r with
  | Some err =>
      let errorMsg := "Ошибка при конвертации " +:+ webpFile +:+ ": " +:+ Error err in
      mkBatch (Eprintf (errorMsg +:+ nl) w)
              (errors b ++ [mkConversionError webpFile errorMsg])
              (successCount b)
  | None =>
      let '(w, r) := os_Stat outputPath w in
      match r with
      | inr _ =>
          let errorMsg := "Выходной файл " +:+ outputPath
                          +:+ " не найден после конвертации " +:+ webpFile in
          mkBatch (Eprintf ("Ошибка: " +:+ errorMsg +:+ nl) w)
                  (errors b ++ [mkConversionError webpFile errorMsg])
                  (successCount b)
      | inl outputInfo =>
          if (Size outputInfo =? 0)%nat then
            let errorMsg := "Выходной файл " +:+ outputPath
                            +:+ " пустой после конвертации " +:+ webpFile in
            let w := Eprintf ("Ошибка: " +:+ errorMsg +:+ nl) w in
            let '(w, _) := os_Remove outputPath w in
            mkBatch w (errors b ++ [mkConversionError webpFile errorMsg])
                    (successCount b)
          else
            mkBatch (Printf ("✓ Конвертировано: " +:+ webpFile +:+ " -> "
                             +:+ pngName +:+ nl) w)
                    (errors b) (successCount b + 1)
      end
  end.

(** The second loop, lines 100-140. *)
Definition processAll (inputDir outputDir : string) (webpFiles : list string)
    (w : World) : Batch :=
  fold_left (processFile inputDir outputDir) webpFiles (mkBatch w [] 0).

(** The numbered entries of the report: [for i, convErr := range errors]. *)
Fixpoint writeEntries (reportPath : string) (i : nat) (errs : list conversionError)
    (w : World) : World :=
  match errs with
  | [] => w
  | convErr :: rest =>
      let w := Fprintf reportPath
                 (fmt_d (i + 1) +:+ ". Файл: " +:+ fileName convErr +:+ nl) w in
      let w := Fprintf reportPath
                 ("   Ошибка: " +:+ errorMsg convErr +:+ nl +:+ nl) w in
      writeEntries reportPath (i + 1) rest w
  end.

Definition reportPathOf (inputDir outputDir : string) : string :=
  let reportDir := if String.eqb outputDir "" then inputDir else outputDir in
  filepath_Join P reportDir "conversion_errors.txt".

(** The report block, lines 142-167; the deferred [Close] of the report
    file is left to the caller, which runs it on return. *)
Definition writeReport (inputDir outputDir : string) (errs : list conversionError)
    (w : World) : World * bool :=
  let reportPath := reportPathOf inputDir outputDir in
  let '(w, r) := os_Create reportPath w in
  match r with
  | Some err =>
      (Eprintf ("Предупреждение: не удалось создать файл отчета: "
                +:+ Error err +:+ nl) w, false)
  | None =>
      let w := Fprintf reportPath ("Отчет об ошибках конвертации" +:+ nl) w in
      let w := Fprintf reportPath ("================================" +:+ nl +:+ nl) w in
      let w := Fprintf reportPath
                 ("Всего ошибок: " +:+ fmt_d (length errs) +:+ nl +:+ nl) w in
      let w := writeEntries reportPath 0 errs w in
      (Printf (nl +:+ "Файл отчета с ошибками создан: " +:+ reportPath +:+ nl) w, true)
  end.

Definition convertDirectory (inputDir outputDir : string) (w : World)
    : World * option error :=
  let '(w, r) := os_ReadDir inputDir w in
  match r with
  | inr err => (w, Some (Errorf_w msgReadDir err))
  | inl entries =>
      let webpFiles := listWebpFiles entries in
      if (length webpFiles =? 0)%nat then
        (Printf ("WebP файлы не найдены в директории: " +:+ inputDir +:+ nl) w, None)
      else
        let w := Printf ("Найдено WebP файлов: " +:+ fmt_d (length webpFiles) +:+ nl) w in
        let '(w, r) :=
          if negb (String.eqb outputDir "") && negb (String.eqb outputDir inputDir)
          then os_MkdirAll outputDir w
          else (w, None) in
        match r with
        | Some err => (w, Some (Errorf_w msgMkdir err))
        | None =>
            let b := processAll inputDir outputDir webpFiles w in
            let '(w, opened) :=
              if (0 <? length (errors b))%nat
              then writeReport inputDir outputDir (errors b) (world b)
              else (world b, false) in
            let w := Printf (nl +:+ "Конвертация завершена. Успешно: "
                             +:+ fmt_d (successCount b) +:+ " из "
                             +:+ fmt_d (length webpFiles) +:+ nl) w in
            (if opened then File_Close (reportPathOf inputDir outputDir) w else w, None)
        end
  end.

(** *** [main]

    [args] is what [flag.Args()] returns and [prog] is [os.Args[0]]; the
    result is the exit status. *)

Definition Usage (prog : string) (w : World) : World :=
  let w := Eprintf ("WebP to PNG Converter" +:+ nl) w in
  let w := Eprintf ("=====================" +:+ nl +:+ nl) w in
  let w := Eprintf ("Использование:" +:+ nl) w in
  let w := Eprintf ("  " +:+ prog +:+ " <входной_файл.webp> [выходной_файл.png]" +:+ nl) w in
  let w := Eprintf ("  " +:+ prog +:+ " <директория> [выходная_директория]" +:+ nl +:+ nl) w in
  let w := Eprintf ("Примеры:" +:+ nl) w in
  let w := Eprintf ("  " +:+ prog +:+ " image.webp" +:+ nl) w in
  let w := Eprintf ("  " +:+ prog +:+ " image.webp output.png" +:+ nl) w in
  let w := Eprintf ("  " +:+ prog +:+ " ./images" +:+ nl) w in
  Eprintf ("  " +:+ prog +:+ " ./images ./converted" +:+ nl) w.

(** Lines 217-220: the output path of the single-file branch. *)
Definition singleOutput (input output : string) : string :=
  if String.eqb output "" then TrimSuffix input (Ext input) +:+ ".png" else output.

Definition main (prog : string) (args : list string) (w : World) : World * nat :=
  match args with
  | [] => (Usage prog w, 1)
  | input :: rest =>
      let output := match rest with o :: _ => o | [] => "" end in
      let '(w, r) := os_Stat input w in
      match r with
      | inr err => (Eprintf ("Ошибка: " +:+ Error err +:+ nl) w, 1)
      | inl info =>
          if Mode_IsDir info then
            let '(w, r) := convertDirectory input output w in
            match r with
            | Some err => (Eprintf ("Ошибка: " +:+ Error err +:+ nl) w, 1)
            | None => (w, 0)
            end
          else
            let output := singleOutput input output in
            let '(w, r) := convertWebPToPNG input output w in
            match r with
            | Some err => (Eprintf ("Ошибка: " +:+ Error err +:+ nl) w, 1)
            | None =>
                (Printf ("✓ Успешно конвертировано: " +:+ filepath_Base P input
                         +:+ " -> " +:+ filepath_Base P output +:+ nl) w, 0)
            end
      end
  end.

End Program.


Arguments collect webpFiles entry : simpl never.

(** ** Reading the log *)

(** The calls made between two worlds. *)
Definition since (w w' : World) : list (Call * bool) :=
  drop (length (log w)) (log w').

(** [c] was called between [w] and [w'], whatever came of it. *)
Definition attempted (c : Call) (w w' : World) : Prop :=
  ∃ ok, In (c, ok) (since w w').

(** The paths read with [os.ReadFile] in a list of calls, in order. *)
Definition readsOf (calls : list (Call * bool)) : list string :=
  omap (λ e, match e.1 with ReadFile path => Some path | _ => None end) calls.

(** ** The words of the specification *)

(** [img] is what the decode policy makes of [data]: the WebP reading, or
    the JPEG reading when there is no WebP one. *)
Definition decoded {image : Type} (P : Platform image) (data : list byte)
    (img : image) : Prop :=
  webp_Decode P data = inl img
  ∨ (is_inl (webp_Decode P data) = false ∧ jpeg_Decode P data = inl img).

(** The destination passes verification: it exists and is not empty. *)
Definition verified (w : World) (path : string) : Prop :=
  ∃ data, files w !! path = Some data ∧ data ≠ [].

(** [part] occurs in [msg]. *)
Definition carries (msg part : string) : bool :=
  match String.index 0 part msg with Some _ => true | None => false end.

(** [ext] is [.webp] up to the case of its letters. *)
Definition isDotWebp (ext : string) : Prop :=
  ∃ c1 c2 c3 c4 : ascii,
    ext = String "."%char (String c1 (String c2 (String c3 (String c4 ""))))
    ∧ (c1 = "w"%char ∨ c1 = "W"%char)
    ∧ (c2 = "e"%char ∨ c2 = "E"%char)
    ∧ (c3 = "b"%char ∨ c3 = "B"%char)
    ∧ (c4 = "p"%char ∨ c4 = "P"%char).

(** An eligible file: a non-directory entry whose name ends with [.webp],
    case-insensitive. *)
Definition Eligible (entry : DirEntry) : Prop :=
  IsDir entry = false ∧ ∃ stem ext, Name entry = stem +:+ ext ∧ isDotWebp ext.

(** No path separator in [s]. *)
Fixpoint noSeparator (s : string) : bool :=
  match s with
  | EmptyString => true
  | String c s' => negb (IsPathSeparator c) && noSeparator s'
  end.

(** The location of a path: all of it up to and including its last
    separator. *)
Fixpoint location (path : string) : string :=
  match path with
  | EmptyString => EmptyString
  | String c rest =>
      if noSeparator rest
      then (if IsPathSeparator c then String c "" else "")
      else String c (location rest)
  end.

(** One numbered entry of the report. *)
Definition reportEntry (number : nat) (e : conversionError) : string :=
  fmt_d number +:+ ". Файл: " +:+ fileName e +:+ nl
  +:+ "   Ошибка: " +:+ errorMsg e +:+ nl +:+ nl.

Fixpoint reportEntries (first : nat) (errs : list conversionError) : string :=
  match errs with
  | [] => ""
  | e :: rest => reportEntry first e +:+ reportEntries (S first) rest
  end.

(** The report of section 6: a header, the count, the entries numbered
    from one. *)
Definition reportText (errs : list conversionError) : string :=
  "Отчет об ошибках конвертации" +:+ nl
  +:+ "================================" +:+ nl +:+ nl
  +:+ "Всего ошибок: " +:+ fmt_d (length errs) +:+ nl +:+ nl
  +:+ reportEntries 1 errs.

(** The last line of a batch run. *)
Definition summaryLine (successes total : nat) : string :=
  nl +:+ "Конвертация завершена. Успешно: " +:+ fmt_d successes
  +:+ " из " +:+ fmt_d total +:+ nl.

(** ** The stages of a batch run *)

(** The test of the first loop on one entry. *)
Definition eligibleb (entry : DirEntry) : bool :=
  negb (IsDir entry) && HasSuffix (ToLower (Name entry)) ".webp".

(** A call on a file or a codec, as opposed to the two directory calls. *)
Definition fileCall (c : Call) : bool :=
  match c with
  | ReadDir _ | MkdirAll _ => false
  | _ => true
  end.

(** The output directory is named and is not the input directory: line 88. *)
Definition needsMkdir (inputDir outputDir : string) : bool :=
  negb (String.eqb outputDir "") && negb (String.eqb outputDir inputDir).

(** The world once the listing succeeded and gave [n] eligible files. *)
Definition listed (inputDir : string) (n : nat) (w : World) : World :=
  Printf ("Найдено WebP файлов: " +:+ fmt_d n +:+ nl)
    (logged (ReadDir inputDir) true w).

(** The world in which the second loop of [convertDirectory] starts, the
    output directory made if it had to be. *)
Definition loopStart (inputDir outputDir : string) (n : nat) (w : World) : World :=
  if needsMkdir inputDir outputDir
  then logged (MkdirAll outputDir) true
         (set_dirs (λ d, {[outputDir]} ∪ d) (listed inputDir n w))
  else listed inputDir n w.

(** What [convertDirectory] does after its second loop, lines 142-170. *)
Definition batchEnd {image : Type} (P : Platform image)
    (inputDir outputDir : string) (total : nat) (b : Batch) : World :=
  let '(w, opened) :=
    if (0 <? length (errors b))%nat
    then writeReport P inputDir outputDir (errors b) (world b)
    else (world b, false) in
  let w := Printf (summaryLine (successCount b) total) w in
  if opened then File_Close (reportPathOf P inputDir outputDir) w else w.

(** [args[1]] when there is one, the empty string otherwise: lines 196-199. *)
Definition outputArg (rest : list string) : string :=
  match rest with o :: _ => o | [] => "" end.

(** What the second loop records when the conversion of a file fails. *)
Definition conversionFailure (webpFile : string) (err : error) : conversionError :=
  mkConversionError webpFile
    ("Ошибка при конвертации " +:+ webpFile +:+ ": " +:+ Error err).

(** ** A platform to run the program on

    Toy codecs over images that are byte strings: a WebP file is [RIFF]
    followed by the pixels, a JPEG file the marker [ff d8] followed by the
    pixels, and a PNG file the signature bytes followed by the pixels.  The
    calls listed by [bad] fail; the directory listing is [listing]. *)

Module Sample.

Definition image : Type := list byte.

Definition webp (data : list byte) : image + error :=
  match data with
  | x52 :: x49 :: x46 :: x46 :: pixels => inl pixels
  | _ => inr (errorString "riff: missing RIFF chunk header")
  end.

Definition jpeg (data : list byte) : image + error :=
  match data with
  | xff :: xd8 :: pixels => inl pixels
  | _ => inr (errorString "invalid JPEG format: missing SOI marker")
  end.

Definition png (img : image) : list byte + error :=
  inl (x89 :: x50 :: x4e :: x47 :: img).

(** An encoder that reports success and writes nothing. *)
Definition silent (img : image) : list byte + error := inl [].

Definition join (dir name : string) : string := dir +:+ "/" +:+ name.

Definition fault (bad : Call → bool) (c : Call) (text : string) : option error :=
  if bad c then Some (errorString text) else None.

Definition platform (encoder : image → list byte + error)
    (listing : list DirEntry) (bad : Call → bool) : Platform image :=
  {| webp_Decode := webp;
     jpeg_Decode := jpeg;
     png_bytes := encoder;
     filepath_Join := join;
     filepath_Base := λ path, path;
     read_fault := λ _ path, fault bad (ReadFile path) "permission denied";
     create_fault := λ _ path, fault bad (Create path) "permission denied";
     write_fault := λ _ path _,
       if bad (PngEncode path)
       then Some (2, errorString "no space left on device") else None;
     sync_fault := λ _ path, fault bad (Sync path) "input/output error";
     remove_fault := λ _ path, fault bad (Remove path) "permission denied";
     stat_fault := λ _ path, fault bad (Stat path) "permission denied";
     mkdir_fault := λ _ path, fault bad (MkdirAll path) "permission denied";
     read_dir := λ _ path,
       if bad (ReadDir path)
       then inr (errorString "permission denied") else inl listing |}.

Definition never (c : Call) : bool := false.

(** A world with the given files and nothing else. *)
Definition disk (content : list (string * list byte)) : World :=
  mkWorld (list_to_map content) ∅ ∅ [] [] [].

Definition webpBytes : list byte := [x52; x49; x46; x46; x01; x02; x03].
Definition jpegBytes : list byte := [xff; xd8; x0a; x0b].
Definition textBytes : list byte := [x68; x65; x6c; x6c; x6f].

(** A directory [in] with a WebP file, a JPEG file under a [.WEBP] name and
    a text file under a [.webp] name. *)
Definition threeFiles : World :=
  disk [("in/a.webp", webpBytes); ("in/b.WEBP", jpegBytes); ("in/c.webp", textBytes)].

(** Its listing: the three files, a directory named like one, and a file
    of another kind. *)
Definition listing : list DirEntry :=
  [mkDirEntry "a.webp" false; mkDirEntry "old.webp" true; mkDirEntry "b.WEBP" false;
   mkDirEntry "c.webp" false; mkDirEntry "notes.txt" false].

(** The sample disk with its directory [in] known to the system. *)
Definition threeFilesIn : World := set_dirs (λ _, {["in"]}) threeFiles.

(** Nothing fails. *)
Definition sound : Platform image := platform png listing never.

(** Only the call [c] fails. *)
Definition failing (c : Call) : Call → bool :=
  λ c', match c, c' with
        | PngEncode p, PngEncode p' | Sync p, Sync p' | Stat p, Stat p'
        | MkdirAll p, MkdirAll p' | Create p, Create p' => String.eqb p p'
        | _, _ => false
        end.

End Sample.

(** * Facts

    ** Strings *)

Section GoStringFacts.

Implicit Types (s t path stem : string) (c : ascii) (i n : nat).

Lemma app_cons c s t : String c s +:+ t = String c (s +:+ t).
Proof. reflexivity. Qed.

Lemma app_empty t : "" +:+ t = t.
Proof. reflexivity. Qed.

Lemma from_0 s : from 0 s = s.
Proof.
  unfold from. rewrite Nat.sub_0_r.
  induction s as [|c s IH]; simpl; [done | by rewrite IH].
Qed.

Lemma from_S i c s : from (S i) (String c s) = from i s.
Proof. reflexivity. Qed.

Lemma from_end s : from (String.length s) s = "".
Proof.
  induction s as [|c s IH]; [done|]. cbn [String.length]. by rewrite from_S.
Qed.

Lemma upto_S i c s : upto (S i) (String c s) = String c (upto i s).
Proof. reflexivity. Qed.

Lemma upto_all s : upto (String.length s) s = s.
Proof. induction s as [|c s IH]; [done|]. cbn [String.length]. by rewrite upto_S, IH. Qed.

Lemma length_append s t : String.length (s +:+ t) = String.length s + String.length t.
Proof.
  induction s as [|c s IH]; [done|].
  rewrite app_cons. simpl. by rewrite IH.
Qed.

Lemma from_app s t : from (String.length s) (s +:+ t) = t.
Proof.
  induction s as [|c s IH].
  - apply from_0.
  - rewrite app_cons. cbn [String.length]. by rewrite from_S.
Qed.

Lemma upto_app s t : upto (String.length s) (s +:+ t) = s.
Proof.
  induction s as [|c s IH].
  - by destruct t.
  - rewrite app_cons. cbn [String.length]. by rewrite upto_S, IH.
Qed.

Lemma upto_from i s : (i ≤ String.length s)%nat → upto i s +:+ from i s = s.
Proof.
  revert i. induction s as [|c s IH]; intros [|i] Hi; simpl in Hi; try lia.
  - done.
  - by rewrite from_0.
  - rewrite upto_S, from_S, app_cons, IH; [done | lia].
Qed.

Lemma length_from i s : String.length (from i s) = String.length s - i.
Proof.
  revert i. induction s as [|c s IH]; intros [|i]; try done.
  - by rewrite from_0.
  - rewrite from_S, IH. done.
Qed.

Lemma get_from i j s : String.get j (from i s) = String.get (i + j) s.
Proof.
  revert i. induction s as [|c s IH]; intros [|i].
  - done.
  - by destruct j.
  - by rewrite from_0.
  - rewrite from_S, IH. done.
Qed.

Lemma get_app_r s t j : String.get (String.length s + j) (s +:+ t) = String.get j t.
Proof. induction s as [|c s IH]; [done | rewrite app_cons; exact IH]. Qed.

Lemma get_lt i s : (i < String.length s)%nat → ∃ c, String.get i s = Some c.
Proof.
  revert i. induction s as [|c s IH]; intros [|i] Hi; simpl in *; try lia; eauto.
  apply IH. lia.
Qed.

Lemma eqb_same s : String.eqb s s = true.
Proof. by apply String.eqb_eq. Qed.

Lemma HasSuffix_app s t : HasSuffix (s +:+ t) t = true.
Proof.
  unfold HasSuffix. rewrite length_append.
  replace (String.length s + String.length t - String.length t) with (String.length s) by lia.
  rewrite from_app, eqb_same.
  rewrite andb_true_r. apply Nat.leb_le. lia.
Qed.

Lemma HasSuffix_split s t :
  HasSuffix s t = true → s = upto (String.length s - String.length t) s +:+ t.
Proof.
  unfold HasSuffix. intros [Hle Heq]%andb_true_iff.
  apply Nat.leb_le in Hle. apply String.eqb_eq in Heq.
  set (k := String.length s - String.length t) in *.
  etransitivity; [symmetry; apply (upto_from k); lia |]. by rewrite Heq.
Qed.

Lemma TrimSuffix_app s t : TrimSuffix (s +:+ t) t = s.
Proof.
  unfold TrimSuffix. rewrite HasSuffix_app, length_append.
  replace (String.length s + String.length t - String.length t) with (String.length s) by lia.
  apply upto_app.
Qed.

Lemma ToLower_app s t : ToLower (s +:+ t) = ToLower s +:+ ToLower t.
Proof.
  induction s as [|c s IH]; [done|].
  rewrite app_cons. simpl. by rewrite IH, app_cons.
Qed.

Lemma length_ToLower s : String.length (ToLower s) = String.length s.
Proof. induction s as [|c s IH]; simpl; [done | by rewrite IH]. Qed.

Lemma ToLower_upto i s : ToLower (upto i s) = upto i (ToLower s).
Proof.
  revert i. induction s as [|c s IH]; intros [|i]; try done.
  simpl ToLower. rewrite !upto_S. simpl. by rewrite IH.
Qed.

Lemma ToLower_from i s : ToLower (from i s) = from i (ToLower s).
Proof.
  revert i. induction s as [|c s IH]; intros [|i]; try done.
  - by rewrite !from_0.
  - simpl ToLower. by rewrite !from_S.
Qed.


(** *** The suffix test of the first loop *)

Lemma lower_byte_inv c d :
  lower_byte c = d →
  c = d ∨ (c = ascii_of_nat (nat_of_ascii d - 32) ∧ (97 ≤ nat_of_ascii d ≤ 122)%nat).
Proof.
  unfold lower_byte. intros <-.
  destruct (andb _ _) eqn:E; [right | by left].
  apply andb_true_iff in E as [H1%Nat.leb_le H2%Nat.leb_le].
  assert (nat_of_ascii c + 32 < 256)%nat as Hlt by lia.
  rewrite nat_ascii_embedding by done.
  replace (nat_of_ascii c + 32 - 32) with (nat_of_ascii c) by lia.
  rewrite ascii_nat_embedding. split; [done | lia].
Qed.

Lemma lower_byte_dot c : lower_byte c = "."%char → c = "."%char.
Proof. intros [?|[_ H]]%lower_byte_inv; [done | vm_compute in H; lia]. Qed.

Lemma string5 s :
  String.length s = 5 →
  ∃ c0 c1 c2 c3 c4, s = String c0 (String c1 (String c2 (String c3 (String c4 "")))).
Proof.
  destruct s as [|c0 [|c1 [|c2 [|c3 [|c4 [|]]]]]]; simpl; intros; try lia.
  by do 5 eexists.
Qed.

Lemma ToLower_dotWebp ext : ToLower ext = ".webp" ↔ isDotWebp ext.
Proof.
  split.
  - intros H.
    assert (String.length ext = 5) as Hlen by (by rewrite <- length_ToLower, H).
    apply string5 in Hlen as (c0 & c1 & c2 & c3 & c4 & ->).
    simpl in H. injection H as H0 H1 H2 H3 H4.
    apply lower_byte_dot in H0 as ->.
    exists c1, c2, c3, c4. split; [done|].
    repeat split.
    + apply lower_byte_inv in H1 as [?|[? _]]; [by left | by right].
    + apply lower_byte_inv in H2 as [?|[? _]]; [by left | by right].
    + apply lower_byte_inv in H3 as [?|[? _]]; [by left | by right].
    + apply lower_byte_inv in H4 as [?|[? _]]; [by left | by right].
  - intros (c1 & c2 & c3 & c4 & -> & [-> | ->] & [-> | ->] & [-> | ->] & [-> | ->]);
      reflexivity.
Qed.

Lemma HasSuffix_ToLower name :
  HasSuffix (ToLower name) ".webp" = true ↔
  ∃ stem ext, name = stem +:+ ext ∧ isDotWebp ext.
Proof.
  split.
  - intros H. pose proof H as [Hle Heq]%andb_true_iff.
    apply Nat.leb_le in Hle. apply String.eqb_eq in Heq.
    rewrite length_ToLower in Hle, Heq. simpl in Hle, Heq.
    exists (upto (String.length name - 5) name), (from (String.length name - 5) name).
    split.
    + symmetry. apply upto_from. lia.
    + apply ToLower_dotWebp. by rewrite ToLower_from.
  - intros (stem & ext & -> & Hext%ToLower_dotWebp).
    rewrite ToLower_app, Hext. apply HasSuffix_app.
Qed.

(** *** [filepath.Ext] *)

Lemma Ext_loop_spec path n :
  (n ≤ String.length path)%nat →
  Ext_loop path n = "" ∨
  ∃ i, (i < n)%nat ∧ Ext_loop path n = from i path
       ∧ String.get i path = Some "."%char
       ∧ ∀ j c, (i < j < n)%nat → String.get j path = Some c →
                IsPathSeparator c = false.
Proof.
  induction n as [|n IH]; intros Hn; [by left|].
  simpl. destruct (String.get n path) as [c|] eqn:Hc; [|by left].
  destruct (IsPathSeparator c) eqn:Hsep; [by left|].
  destruct (Ascii.eqb c ".") eqn:Hdot.
  - apply Ascii.eqb_eq in Hdot as ->. right. exists n.
    repeat split; [lia | done |]. intros; lia.
  - destruct IH as [IH | (i & Hi & Heq & Hget & Hall)]; [lia | by left |].
    right. exists i. repeat split; [lia | done | done |].
    intros j d Hj Hd. destruct (decide (j = n)) as [-> | Hne].
    + congruence.
    + apply (Hall j); [lia | done].
Qed.

Lemma noSeparator_get s :
  (∀ j c, String.get j s = Some c → IsPathSeparator c = false) → noSeparator s = true.
Proof.
  induction s as [|c s IH]; intros H; [done|]. simpl.
  rewrite (H 0%nat c) by done. simpl. apply IH. intros j d Hd. by apply (H (S j)).
Qed.

Lemma get_Some_lt j s c : String.get j s = Some c → (j < String.length s)%nat.
Proof.
  revert j. induction s as [|d s IH]; intros [|j]; simpl; try done; [lia|].
  intros H%IH. lia.
Qed.

Lemma Ext_noSeparator path : noSeparator (Ext path) = true.
Proof.
  unfold Ext.
  destruct (Ext_loop_spec path (String.length path)) as [-> | (i & Hi & -> & Hdot & Hall)];
    [lia | done |].
  apply noSeparator_get. intros j c. rewrite get_from. intros Hc.
  destruct j as [|j].
  - rewrite Nat.add_0_r in Hc. by simplify_eq.
  - apply (Hall (i + S j)%nat); [|done]. apply get_Some_lt in Hc. lia.
Qed.

Lemma Ext_split path :
  TrimSuffix path (Ext path) +:+ Ext path = path.
Proof.
  unfold Ext.
  destruct (Ext_loop_spec path (String.length path)) as [-> | (i & Hi & -> & _)]; [lia | |].
  - unfold TrimSuffix, HasSuffix. simpl. rewrite Nat.sub_0_r, from_end. simpl.
    rewrite upto_all. clear. induction path as [|c p IH]; [done|]. by rewrite app_cons, IH.
  - assert (HasSuffix path (from i path) = true) as Hs.
    { unfold HasSuffix. rewrite length_from.
      replace (String.length path - (String.length path - i)) with i by lia.
      rewrite eqb_same, andb_true_r. apply Nat.leb_le. lia. }
    unfold TrimSuffix. rewrite Hs, length_from.
    replace (String.length path - (String.length path - i)) with i by lia.
    apply upto_from. lia.
Qed.

Lemma Ext_dotWebp stem ext : isDotWebp ext → Ext (stem +:+ ext) = ext.
Proof.
  intros (c1 & c2 & c3 & c4 & -> & H1 & H2 & H3 & H4).
  unfold Ext. rewrite length_append. simpl String.length.
  replace (String.length stem + 5)%nat with (S (String.length stem + 4)) by lia.
  assert (∀ j, String.get (String.length stem + j) (stem +:+ String "." (String c1 (String c2 (String c3 (String c4 ""))))) = String.get j (String "." (String c1 (String c2 (String c3 (String c4 "")))))) as G
    by (intros; apply get_app_r).
  cbn [Ext_loop]. rewrite G. simpl String.get.
  destruct H4 as [-> | ->]; simpl;
  (replace (String.length stem + 4)%nat with (S (String.length stem + 3)) by lia;
   cbn [Ext_loop]; rewrite G; simpl String.get;
   destruct H3 as [-> | ->]; simpl;
   (replace (String.length stem + 3)%nat with (S (String.length stem + 2)) by lia;
    cbn [Ext_loop]; rewrite G; simpl String.get;
    destruct H2 as [-> | ->]; simpl;
    (replace (String.length stem + 2)%nat with (S (String.length stem + 1)) by lia;
     cbn [Ext_loop]; rewrite G; simpl String.get;
     destruct H1 as [-> | ->]; simpl;
     (replace (String.length stem + 1)%nat with (S (String.length stem + 0)) by lia;
      cbn [Ext_loop]; rewrite G; simpl String.get; simpl;
      rewrite Nat.add_0_r; apply from_app)))).
Qed.

(** *** Locations *)

Lemma noSeparator_app s t : noSeparator (s +:+ t) = noSeparator s && noSeparator t.
Proof.
  induction s as [|c s IH]; [done|].
  rewrite app_cons. simpl. by rewrite IH, andb_assoc.
Qed.

Lemma location_noSeparator s : noSeparator s = true → location s = "".
Proof.
  destruct s as [|c s]; [done|]. simpl.
  intros [Hc ->]%andb_true_iff. by destruct (IsPathSeparator c).
Qed.

Lemma location_app stem e : noSeparator e = true → location (stem +:+ e) = location stem.
Proof.
  intros He. induction stem as [|c s IH].
  - rewrite app_empty. by apply location_noSeparator.
  - rewrite app_cons. simpl. by rewrite noSeparator_app, He, andb_true_r, IH.
Qed.

End GoStringFacts.

(** ** The world and its log *)

#[local] Set Warnings "-clear-no-such-hyp".

Lemma since_app w w' d : log w' = log w ++ d → since w w' = d.
Proof. unfold since. intros ->. apply drop_app_length. Qed.

Lemma since_refl w : since w w = [].
Proof. apply since_app. by rewrite app_nil_r. Qed.

Lemma files_created (m : gmap string (list byte)) path bs :
  alter (λ old, old ++ bs) path (<[path := []]> m) = <[path := bs]> m.
Proof. by rewrite alter_insert_eq. Qed.

Lemma handle_open (h : gset string) path : bool_decide (path ∈ {[path]} ∪ h) = true.
Proof. apply bool_decide_eq_true_2. set_solver. Qed.

Lemma handle_closed (h : gset string) path : bool_decide (path ∈ h ∖ {[path]}) = false.
Proof. apply bool_decide_eq_false_2. set_solver. Qed.

Ltac unfold_calls :=
  unfold convertWebPToPNG, os_ReadFile, call_webp_Decode, call_jpeg_Decode,
    os_Create, call_png_Encode, File_Sync, os_Remove, File_Close, os_Stat in *.

(** Every way through the calls: one case per outcome of each of them. *)
Ltac each_path := repeat (case_match; simplify_eq/=).

(** A file just created or written cannot be missing. *)
Ltac present :=
  try match goal with
      | H : alter _ ?p (<[?p := _]> _) !! ?p = None |- _ =>
          by rewrite lookup_alter_eq, lookup_insert_eq in H
      | H : <[?p := _]> _ !! ?p = None |- _ => by rewrite lookup_insert_eq in H
      end.

(** The cases of a membership in a list of calls that is written out. *)
Ltac in_cases H :=
  simpl in H;
  repeat match type of H with
         | _ ∨ _ => destruct H as [H | H]; [simplify_eq |]
         | False => destruct H
         end.

(** The calls since [w], read off a log that is [log w] with calls appended. *)
Ltac read_log :=
  unfold attempted, since;
  cbn [log logged set_files set_handles set_dirs File_Write Printf Eprintf
       files handles fst snd];
  rewrite ?handle_open, ?handle_closed;
  rewrite <- ?app_assoc; rewrite drop_app_length; cbn [app].

Section ConvertFacts.
Context {image : Type} (P : Platform image).
Implicit Types (w : World) (inputPath outputPath : string).

Lemma convert_success inputPath outputPath w :
  snd (convertWebPToPNG P inputPath outputPath w) = None →
  ∃ data img bs,
    files w !! inputPath = Some data ∧ decoded P data img ∧ png_bytes P img = inl bs
    ∧ files (fst (convertWebPToPNG P inputPath outputPath w)) = <[outputPath := bs]> (files w).
Proof.
  unfold decoded. unfold_calls. each_path; intros; simplify_eq;
    eexists _, _, _; rewrite files_created;
    (split; [reflexivity|]); (split; [|by split]);
    first [ by left
          | right; split; [|done];
            by match goal with H : webp_Decode _ _ = inr _ |- _ => rewrite H end ].
Qed.

Lemma convert_calls inputPath outputPath w :
  ∃ ok d,
    log (fst (convertWebPToPNG P inputPath outputPath w))
      = log w ++ (ReadFile inputPath, ok) :: d
    ∧ Forall (λ e, fileCall e.1 = true) d.
Proof.
  unfold_calls. each_path; rewrite <- ?app_assoc; cbn [app];
    do 2 eexists; (split; [reflexivity | repeat constructor]).
Qed.

Lemma convert_stdout inputPath outputPath w :
  stdout (fst (convertWebPToPNG P inputPath outputPath w)) = stdout w.
Proof. unfold_calls. by each_path. Qed.

Lemma decoded_functional data img img' :
  decoded P data img → decoded P data img' → img = img'.
Proof.
  unfold decoded. intros [H | [H1 H2]] [H' | [H1' H2']]; try congruence.
  - by rewrite H in H1'.
  - by rewrite H' in H1.
Qed.

(** With no call refused by the platform, a readable input that decodes to
    an image the encoder accepts is converted. *)
Lemma convert_no_fault inputPath outputPath w data img bs :
  (∀ v, read_fault P v inputPath = None) →
  (∀ v, create_fault P v outputPath = None) →
  (∀ v out, write_fault P v outputPath out = None) →
  (∀ v, sync_fault P v outputPath = None) →
  files w !! inputPath = Some data →
  decoded P data img →
  png_bytes P img = inl bs →
  snd (convertWebPToPNG P inputPath outputPath w) = None.
Proof.
  intros Hread Hcreate Hwrite Hsync Hdata Himg Hbs. unfold_calls.
  rewrite Hread, Hdata.
  destruct Himg as [Hweb | [Hweb Hjpeg]].
  - rewrite Hweb, Hcreate, Hbs, Hwrite, Hsync. done.
  - destruct (webp_Decode P data) as [img' | err] eqn:Hw'; [done |].
    rewrite Hjpeg, Hcreate, Hbs, Hwrite, Hsync. done.
Qed.

End ConvertFacts.

Section ConvertClaims.
Context {image : Type} (P : Platform image).
Implicit Types (w : World) (inputPath outputPath : string).

(** C1: once the file is read, the first call is the WebP decode of the
    whole buffer; the JPEG decode is called exactly when the WebP decode
    fails, and on the same buffer; the call goes on to the encoding stage
    (creating the destination, then [png.Encode] on it once created) exactly
    when one of the two decodes succeeds; and JPEG bytes that the WebP
    decoder refuses are converted, the destination holding their PNG
    encoding, when creating, writing and flushing it do not fail. *)
Theorem convert_decode_fallback inputPath outputPath w data :
  snd (os_ReadFile P inputPath w) = inl data →
  let w' := fst (convertWebPToPNG P inputPath outputPath w) in
  let calls := since w w' in
  let webpOk := is_inl (webp_Decode P data) in
  let jpegOk := is_inl (jpeg_Decode P data) in
  (∃ rest, calls = (ReadFile inputPath, true) :: (WebpDecode data, webpOk) :: rest)
  ∧ ((∃ d ok, In (JpegDecode d, ok) calls) ↔ webpOk = false)
  ∧ (∀ d ok, In (JpegDecode d, ok) calls → d = data ∧ ok = jpegOk)
  ∧ (attempted (Create outputPath) w w' ↔ webpOk || jpegOk = true)
  ∧ (attempted (PngEncode outputPath) w w'
     ↔ webpOk || jpegOk = true ∧ In (Create outputPath, true) calls)
  ∧ (∀ img bs,
       webpOk = false → jpeg_Decode P data = inl img → png_bytes P img = inl bs →
       (∀ v, create_fault P v outputPath = None) →
       (∀ v, write_fault P v outputPath bs = None) →
       (∀ v, sync_fault P v outputPath = None) →
       snd (convertWebPToPNG P inputPath outputPath w) = None
       ∧ files w' !! outputPath = Some bs).
Proof.
  intros Hread w' calls webpOk jpegOk. subst w' calls webpOk jpegOk.
  unfold_calls. each_path; read_log.
  all: split; [eauto|].
  all: split; [naive_solver|].
  all: split; [naive_solver|].
  all: split; [naive_solver|].
  all: split; [naive_solver|].
  all: intros img bs ? ? ? Hc Hw Hs; simplify_eq.
  all: repeat match goal with
         | H : png_bytes _ _ = inl ?a, H' : png_bytes _ _ = _ |- _ =>
             rewrite H in H'; simplify_eq
         end.
  all: try (by rewrite Hc in *).
  all: try (by rewrite Hw in *).
  all: try (by rewrite Hs in *).
  all: split; [done|]; by rewrite files_created, lookup_insert_eq.
Qed.

(** C2, as amended: when both decodes fail, the call fails with the decode
    error, which wraps the error of the JPEG attempt alone: its message is
    the fixed text naming both formats followed by the JPEG message.  No
    file is touched. *)
Theorem convert_decode_error_message inputPath outputPath w data eW eJ :
  snd (os_ReadFile P inputPath w) = inl data →
  webp_Decode P data = inr eW →
  jpeg_Decode P data = inr eJ →
  let run := convertWebPToPNG P inputPath outputPath w in
  snd run = Some (Errorf_w msgDecode eJ)
  ∧ Error (Errorf_w msgDecode eJ) = msgDecode +:+ Error eJ
  ∧ files (fst run) = files w.
Proof.
  intros Hread HW HJ run. subst run. unfold convertWebPToPNG.
  destruct (os_ReadFile P inputPath w) as [w1 r] eqn:Hr. simpl in Hread. subst r.
  unfold call_webp_Decode, call_jpeg_Decode. rewrite HW. simpl. rewrite HJ. simpl.
  repeat split. unfold os_ReadFile in Hr. by each_path.
Qed.

(** C3: the destination is created only after a decode has succeeded;
    when no decode succeeds (the read or both decodes fail) the call fails
    without creating the destination, and leaves every file and handle as
    it was, and so does a creation that is refused; when [png.Encode]
    fails, the handle is closed, the removal of
    the destination is called (it is gone when the removal succeeds, which
    it does unless the system refuses) and the encode error is returned. *)
Theorem convert_failure_leaves_no_destination inputPath outputPath w :
  let run := convertWebPToPNG P inputPath outputPath w in
  let w' := fst run in
  let calls := since w w' in
  (∀ ok, In (Create outputPath, ok) calls →
     ∃ before after data,
       calls = before ++ (Create outputPath, ok) :: after
       ∧ (In (WebpDecode data, true) before ∨ In (JpegDecode data, true) before))
  ∧ ((∀ data, (¬ In (WebpDecode data, true) calls) ∧ (¬ In (JpegDecode data, true) calls)) →
       is_Some (snd run) ∧ ¬ attempted (Create outputPath) w w'
       ∧ files w' = files w ∧ handles w' = handles w)
  ∧ (In (Create outputPath, false) calls →
       is_Some (snd run) ∧ files w' = files w ∧ handles w' = handles w)
  ∧ (In (PngEncode outputPath, false) calls →
       ∃ before removed err,
         calls = before ++ [(PngEncode outputPath, false); (Close outputPath, true);
                            (Remove outputPath, removed); (Close outputPath, false)]
         ∧ snd run = Some (Errorf_w msgEncode err)
         ∧ (outputPath ∉ handles w')
         ∧ (removed = true → files w' !! outputPath = None)
         ∧ ((∀ v, remove_fault P v outputPath = None) → removed = true)).
Proof.
  intros run w' calls. subst run w' calls.
  unfold_calls. each_path; present; read_log.
  all: split; [| split; [| split]].
  (* the destination is created after a decode that succeeded *)
  all: try (intros ok Hin; in_cases Hin;
            first [ eexists [_; _], _, _; split; [reflexivity | simpl; by eauto 6]
                  | eexists [_; _; _], _, _; split; [reflexivity | simpl; by eauto 6] ]).
  (* no decode succeeded *)
  all: try (intros Hno;
            first [ match goal with
                    | H : webp_Decode _ ?d = inl _ |- _ =>
                        destruct (Hno d) as [Hn _]; exfalso; apply Hn; simpl; by auto 6
                    | H : jpeg_Decode _ ?d = inl _ |- _ =>
                        destruct (Hno d) as [_ Hn]; exfalso; apply Hn; simpl; by auto 6
                    end
                  | split; [by eauto |]; split; [| done];
                    intros [ok Hin]; by in_cases Hin ]).
  (* the creation was refused *)
  all: try (intros Hin; in_cases Hin; by eauto).
  (* the encoding failed *)
  all: intros Hin; in_cases Hin.
  all: first [ eexists [_; _; _], _, _; split; [reflexivity |]
             | eexists [_; _; _; _], _, _; split; [reflexivity |] ].
  all: split; [reflexivity |]; split; [set_solver |]; split.
  all: try (intros; first [ discriminate | apply lookup_delete_eq ]).
  all: intros Hr; first [ done | by rewrite Hr in * ].
Qed.

(** C9: after a run that succeeds, with the output not being the input
    itself, a second run on the same paths that the platform does not
    refuse (no read, creation, write or sync fails) succeeds too and
    leaves the same files as the first: it overwrites the destination
    with the PNG encoding of the same decoded image.  Whatever the
    platform does, a second run that succeeds leaves the same files. *)
Theorem convert_twice_idempotent inputPath outputPath w :
  inputPath ≠ outputPath →
  let first := convertWebPToPNG P inputPath outputPath w in
  let second := convertWebPToPNG P inputPath outputPath (fst first) in
  snd first = None →
  ((∀ v, read_fault P v inputPath = None) →
   (∀ v, create_fault P v outputPath = None) →
   (∀ v out, write_fault P v outputPath out = None) →
   (∀ v, sync_fault P v outputPath = None) →
   snd second = None
   ∧ files (fst second) = files (fst first)
   ∧ ∃ data img bs,
       files w !! inputPath = Some data ∧ decoded P data img ∧ png_bytes P img = inl bs
       ∧ files (fst first) = <[outputPath := bs]> (files w)
       ∧ files (fst first) !! outputPath = Some bs
       ∧ files (fst second) !! outputPath = Some bs)
  ∧ (snd second = None →
     files (fst second) = files (fst first)
     ∧ ∃ data img bs,
         files w !! inputPath = Some data ∧ decoded P data img ∧ png_bytes P img = inl bs
         ∧ files (fst first) !! outputPath = Some bs
         ∧ files (fst second) !! outputPath = Some bs).
Proof.
  intros Hne first second H1. subst first second.
  apply convert_success in H1 as (data & img & bs & Hdata & Himg & Hbs & Hw1).
  assert (snd (convertWebPToPNG P inputPath outputPath
                 (fst (convertWebPToPNG P inputPath outputPath w))) = None →
          files (fst (convertWebPToPNG P inputPath outputPath
                        (fst (convertWebPToPNG P inputPath outputPath w))))
          = files (fst (convertWebPToPNG P inputPath outputPath w))) as Hsame.
  { intros H2.
    apply convert_success in H2 as (data' & img' & bs' & Hdata' & Himg' & Hbs' & Hw2).
    rewrite Hw2, Hw1. rewrite Hw1, lookup_insert_ne in Hdata' by done.
    assert (data' = data) as -> by congruence.
    assert (img' = img) as -> by eauto using decoded_functional.
    assert (bs' = bs) as -> by congruence.
    by rewrite insert_insert_eq. }
  split.
  - intros Hread Hcreate Hwrite Hsync.
    assert (snd (convertWebPToPNG P inputPath outputPath
                   (fst (convertWebPToPNG P inputPath outputPath w))) = None) as H2.
    { apply (convert_no_fault P _ _ _ data img bs); try done.
      by rewrite Hw1, lookup_insert_ne. }
    split; [done |]. split; [by apply Hsame |].
    exists data, img, bs. rewrite (Hsame H2), Hw1, lookup_insert_eq. done.
  - intros H2. split; [by apply Hsame |].
    exists data, img, bs. rewrite (Hsame H2), Hw1, lookup_insert_eq. done.
Qed.

End ConvertClaims.

(** ** One file of the batch *)

Section BatchFacts.
Context {image : Type} (P : Platform image).
Implicit Types (w : World) (b : Batch) (inputDir outputDir webpFile : string).

Lemma convert_sync_failure inputPath outputPath w :
  let run := convertWebPToPNG P inputPath outputPath w in
  In (Sync outputPath, false) (since w (fst run)) →
  ∃ err data img bs,
    snd run = Some (Errorf_w msgSync err)
    ∧ files w !! inputPath = Some data ∧ decoded P data img ∧ png_bytes P img = inl bs
    ∧ files (fst run) !! outputPath = Some bs
    ∧ ¬ attempted (Remove outputPath) w (fst run).
Proof.
  intros run. subst run. unfold decoded.
  unfold_calls. each_path; present; read_log; intros Hin; in_cases Hin.
  all: eexists _, _, _, _; split; [reflexivity |]; split; [done |].
  all: rewrite files_created, lookup_insert_eq.
  all: split; [| split; [done |]; split; [done |]; intros [ok Hin]; by in_cases Hin].
  all: first [ by left
             | right; split; [| done];
               by match goal with H : webp_Decode _ _ = inr _ |- _ => rewrite H end ].
Qed.

Lemma convert_kept_destination inputPath outputPath w e :
  let run := convertWebPToPNG P inputPath outputPath w in
  snd run = Some e →
  In (Create outputPath, true) (since w (fst run)) →
  ¬ attempted (Remove outputPath) w (fst run) →
  ∃ err, e = Errorf_w msgSync err ∧ In (Sync outputPath, false) (since w (fst run)).
Proof.
  intros run. subst run.
  unfold_calls. each_path; present; read_log; intros He Hin Hno; simplify_eq.
  all: try (by in_cases Hin).
  all: try (exfalso; apply Hno; eexists; simpl; by eauto 10).
  all: eexists; split; [reflexivity |]; simpl; by eauto 10.
Qed.

Lemma processFile_conv_error inputDir outputDir b webpFile err :
  let conv := convertWebPToPNG P (filepath_Join P inputDir webpFile)
                (outputPathOf P inputDir outputDir webpFile) (world b) in
  snd conv = Some err →
  processFile P inputDir outputDir b webpFile
  = mkBatch (Eprintf (errorMsg (conversionFailure webpFile err) +:+ nl) (fst conv))
            (errors b ++ [conversionFailure webpFile err]) (successCount b).
Proof.
  intros conv. subst conv. unfold processFile.
  destruct (convertWebPToPNG _ _ _ _) as [w1 r]. simpl. by intros ->.
Qed.

Lemma processFile_outcome inputDir outputDir b webpFile :
  let b' := processFile P inputDir outputDir b webpFile in
  (errors b' = errors b ∧ successCount b' = successCount b + 1)
  ∨ (∃ msg, errors b' = errors b ++ [mkConversionError webpFile msg]
            ∧ successCount b' = successCount b).
Proof.
  unfold processFile. destruct (convertWebPToPNG _ _ _ _) as [w1 [err|]]; simpl.
  { right. eauto. }
  unfold os_Stat, os_Remove. each_path; eauto.
Qed.

(** What the second loop records for a file whose conversion returned no
    error, by what [os.Stat] then says of the destination. *)
Lemma processFile_stat inputDir outputDir b webpFile :
  let outputPath := outputPathOf P inputDir outputDir webpFile in
  let conv := convertWebPToPNG P (filepath_Join P inputDir webpFile) outputPath (world b) in
  let b' := processFile P inputDir outputDir b webpFile in
  snd conv = None →
  match snd (os_Stat P outputPath (fst conv)) with
  | inr _ =>
      errors b' = errors b ++
        [mkConversionError webpFile
           ("Выходной файл " +:+ outputPath
            +:+ " не найден после конвертации " +:+ webpFile)]
      ∧ successCount b' = successCount b
  | inl outputInfo =>
      if (Size outputInfo =? 0)%nat
      then errors b' = errors b ++
             [mkConversionError webpFile
                ("Выходной файл " +:+ outputPath
                 +:+ " пустой после конвертации " +:+ webpFile)]
           ∧ successCount b' = successCount b
      else errors b' = errors b ∧ successCount b' = successCount b + 1
  end.
Proof.
  intros outputPath conv b'. subst conv b'. unfold processFile. fold outputPath.
  destruct (convertWebPToPNG _ _ _ _) as [w1 r]. simpl. intros ->.
  destruct (os_Stat P outputPath w1) as [w2 [outputInfo | err]]; simpl; [| done].
  destruct (Size outputInfo =? 0)%nat; [| done].
  by destruct (os_Remove P outputPath _).
Qed.

Lemma processFile_unverified inputDir outputDir b webpFile :
  let outputPath := outputPathOf P inputDir outputDir webpFile in
  let conv := convertWebPToPNG P (filepath_Join P inputDir webpFile) outputPath (world b) in
  let b' := processFile P inputDir outputDir b webpFile in
  snd conv = None →
  ¬ verified (fst conv) outputPath →
  successCount b' = successCount b
  ∧ ∃ msg, errors b' = errors b ++ [mkConversionError webpFile msg].
Proof.
  intros outputPath conv b' Hnil Hnot.
  pose proof (processFile_stat inputDir outputDir b webpFile Hnil) as Hstat.
  cbv zeta in Hstat. fold outputPath conv b' in Hstat.
  unfold os_Stat in Hstat. revert Hstat. each_path; intros Hstat.
  all: try (destruct Hstat as [-> ->]; by eauto).
  exfalso. apply Hnot.
  match goal with
  | H : files _ !! _ = Some ?data |- _ => exists data; split; [exact H |]
  end.
  by intros ->.
Qed.

Lemma processFile_calls inputDir outputDir b webpFile :
  ∃ ok d,
    log (world (processFile P inputDir outputDir b webpFile))
      = log (world b) ++ (ReadFile (filepath_Join P inputDir webpFile), ok) :: d
    ∧ Forall (λ e, fileCall e.1 = true) d.
Proof.
  unfold processFile.
  destruct (convert_calls P (filepath_Join P inputDir webpFile)
              (outputPathOf P inputDir outputDir webpFile) (world b))
    as (ok & d & Hlog & Hd).
  destruct (convertWebPToPNG _ _ _ _) as [w1 r]. simpl in Hlog.
  exists ok. destruct r as [err|]; simpl.
  { exists d. by rewrite Hlog. }
  unfold os_Stat, os_Remove. each_path; rewrite Hlog, <- ?app_assoc; simpl;
    eexists; (split; [reflexivity|]);
    (apply Forall_app; split; [done | by repeat constructor]).
Qed.

(** ** The loop over the eligible files *)

Lemma loop_counts inputDir outputDir webpFiles b :
  let b' := fold_left (processFile P inputDir outputDir) webpFiles b in
  successCount b' + length (errors b')
    = successCount b + length (errors b) + length webpFiles
  ∧ ∃ es, errors b' = errors b ++ es ∧ (fileName <$> es) `sublist_of` webpFiles.
Proof.
  revert b. induction webpFiles as [|f rest IH]; intros b; simpl.
  - split; [lia|]. exists []. by rewrite app_nil_r.
  - destruct (IH (processFile P inputDir outputDir b f)) as (Hn & es & Hes & Hsub).
    destruct (processFile_outcome inputDir outputDir b f)
      as [[He Hs] | (msg & He & Hs)];
      rewrite He, Hs in *.
    + split; [lia|]. exists es. split; [done|]. by apply sublist_cons.
    + rewrite length_app in Hn. simpl in Hn. split; [lia|].
      exists (mkConversionError f msg :: es). split.
      * by rewrite Hes, <- app_assoc.
      * simpl. by apply sublist_skip.
Qed.

Lemma loop_calls inputDir outputDir webpFiles b :
  ∃ d,
    log (world (fold_left (processFile P inputDir outputDir) webpFiles b))
      = log (world b) ++ d
    ∧ Forall (λ e, fileCall e.1 = true) d
    ∧ ∀ f, In f webpFiles → ∃ ok, In (ReadFile (filepath_Join P inputDir f), ok) d.
Proof.
  revert b. induction webpFiles as [|f rest IH]; intros b; simpl.
  - exists []. rewrite app_nil_r. repeat split; [constructor | by intros].
  - destruct (IH (processFile P inputDir outputDir b f)) as (d & Hlog & Hd & Hin).
    destruct (processFile_calls inputDir outputDir b f) as (ok & d0 & Hlog0 & Hd0).
    exists (((ReadFile (filepath_Join P inputDir f), ok) :: d0) ++ d).
    rewrite Hlog, Hlog0, <- app_assoc. split; [done|]. split.
    + apply Forall_app. split; [by constructor | done].
    + intros g [<- | Hg].
      * exists ok. simpl. by left.
      * destruct (Hin g Hg) as [ok' Hok]. exists ok'.
        apply in_app_iff. by right.
Qed.

(** C4: after a conversion that reports success the loop body looks the
    destination up again ([os.Stat]).  It counts the file as a success only
    if the destination is there and not empty; a destination that is
    missing or empty makes the file a failure, recorded under its name; the
    file found empty is removed (it is gone when the removal succeeds, which
    it does unless the system refuses), while a file that cannot be stat'ed
    is reported as not found and nothing more is called; so when the
    system refuses neither call, no destination that failed verification
    remains; and whatever the outcome, the loop goes on with the next
    file. *)
Theorem processFile_verifies inputDir outputDir b webpFile rest :
  let outputPath := outputPathOf P inputDir outputDir webpFile in
  let conv := convertWebPToPNG P (filepath_Join P inputDir webpFile) outputPath (world b) in
  let b' := processFile P inputDir outputDir b webpFile in
  let checks := since (fst conv) (world b') in
  snd conv = None →
  fold_left (processFile P inputDir outputDir) (webpFile :: rest) b
    = fold_left (processFile P inputDir outputDir) rest b'
  ∧ (∃ ok more, checks = (Stat outputPath, ok) :: more)
  ∧ (successCount b' = successCount b + 1 →
       verified (fst conv) outputPath ∧ errors b' = errors b
       ∧ files (world b') = files (fst conv))
  ∧ (¬ verified (fst conv) outputPath →
       successCount b' = successCount b
       ∧ ∃ msg, errors b' = errors b ++ [mkConversionError webpFile msg])
  ∧ (In (Stat outputPath, true) checks →
     files (fst conv) !! outputPath = Some [] →
       ∃ removed,
         checks = [(Stat outputPath, true); (Remove outputPath, removed)]
         ∧ (removed = true → files (world b') !! outputPath = None)
         ∧ ((∀ v, remove_fault P v outputPath = None) → removed = true))
  ∧ (In (Stat outputPath, false) checks →
       checks = [(Stat outputPath, false)]
       ∧ successCount b' = successCount b
       ∧ errors b' = errors b ++
           [mkConversionError webpFile
              ("Выходной файл " +:+ outputPath
               +:+ " не найден после конвертации " +:+ webpFile)])
  ∧ ((∀ v, stat_fault P v outputPath = None) →
     (∀ v, remove_fault P v outputPath = None) →
     ¬ verified (fst conv) outputPath →
     files (world b') !! outputPath = None).
Proof.
  intros outputPath conv b' checks Hnone. split; [reflexivity |].
  revert Hnone. subst conv b' checks. unfold processFile. fold outputPath.
  destruct (convertWebPToPNG _ _ _ _) as [w1 r]. simpl. intros ->.
  unfold verified, os_Stat, os_Remove. each_path; read_log.
  all: split; [by eauto |]; split; [| split; [| split; [| split]]].
  (* counted *)
  all: try (intros Hcount; first [ by lia | split; [| done]; eexists; split; [done |];
            by intros -> ]).
  (* not verified *)
  all: try (intros Hnot; first [ split; [done |]; by eauto
                               | exfalso; apply Hnot; eexists; split; [done |];
                                 by intros -> ]).
  (* found empty *)
  all: try (intros Hin Hempty; in_cases Hin; simplify_eq; simpl in *;
            first [ done
                  | eexists; split; [reflexivity |]; split;
                    [ intros; first [ discriminate | apply lookup_delete_eq ]
                    | intros Hr; first [ done | by rewrite Hr in * ] ] ]).
  (* not found *)
  all: try (intros Hin; by in_cases Hin).
  (* with no refusal from the system, nothing unverified remains *)
  all: intros Hs Hr Hnot;
    first [ done
          | by rewrite Hs in *
          | by rewrite Hr in *
          | apply lookup_delete_eq
          | exfalso; apply Hnot; eexists; split; [done |]; by intros -> ].
Qed.

(** C10: when the flush fails after a successful encode, the call returns
    the sync error without calling the removal, and the destination holds
    all the bytes of the encoded image (so it passes verification as soon
    as the encoder wrote anything); an error return after which the
    created destination is left with no removal attempted is always this
    one; and in batch mode the file is then recorded as a failure while its
    destination stays on disk. *)
Theorem sync_failure_keeps_destination :
  (∀ inputPath outputPath w,
     let run := convertWebPToPNG P inputPath outputPath w in
     (In (Sync outputPath, false) (since w (fst run)) →
        ∃ err data img bs,
          snd run = Some (Errorf_w msgSync err)
          ∧ files w !! inputPath = Some data ∧ decoded P data img
          ∧ png_bytes P img = inl bs
          ∧ files (fst run) !! outputPath = Some bs
          ∧ (bs ≠ [] → verified (fst run) outputPath)
          ∧ ¬ attempted (Remove outputPath) w (fst run))
     ∧ (∀ e, snd run = Some e →
          In (Create outputPath, true) (since w (fst run)) →
          ¬ attempted (Remove outputPath) w (fst run) →
          ∃ err, e = Errorf_w msgSync err
                 ∧ In (Sync outputPath, false) (since w (fst run))))
  ∧ (∀ inputDir outputDir b webpFile,
       let outputPath := outputPathOf P inputDir outputDir webpFile in
       let conv := convertWebPToPNG P (filepath_Join P inputDir webpFile)
                     outputPath (world b) in
       let b' := processFile P inputDir outputDir b webpFile in
       In (Sync outputPath, false) (since (world b) (fst conv)) →
       ∃ err img bs,
         errors b' = errors b ++ [conversionFailure webpFile (Errorf_w msgSync err)]
         ∧ successCount b' = successCount b
         ∧ png_bytes P img = inl bs
         ∧ files (world b') !! outputPath = Some bs
         ∧ ¬ attempted (Remove outputPath) (world b) (world b')).
Proof.
  split.
  - intros inputPath outputPath w run. split.
    + intros Hsync.
      destruct (convert_sync_failure _ _ _ Hsync)
        as (err & data & img & bs & Herr & Hdata & Himg & Hbs & Hfile & Hno).
      exists err, data, img, bs. repeat split; try done. by exists bs.
    + intros e. apply convert_kept_destination.
  - intros inputDir outputDir b webpFile outputPath conv b' Hsync.
    destruct (convert_sync_failure _ _ _ Hsync)
      as (err & data & img & bs & Herr & _ & _ & Hbs & Hfile & Hno).
    exists err, img, bs. subst b'.
    rewrite (processFile_conv_error inputDir outputDir b webpFile _ Herr).
    by repeat split.
Qed.

End BatchFacts.

(** ** The report *)

Lemma bytes_app s t :
  list_byte_of_string (s +:+ t) = list_byte_of_string s ++ list_byte_of_string t.
Proof.
  unfold list_byte_of_string. induction s as [|c s IH]; [done|].
  rewrite app_cons. simpl. by rewrite IH.
Qed.

Section ReportFacts.
Context {image : Type} (P : Platform image).
Implicit Types (w : World) (path : string).

(** A write changes nothing but the file. *)
Lemma Fprintf_rest path s w :
  let w' := Fprintf P path s w in
  log w' = log w ∧ handles w' = handles w ∧ stdout w' = stdout w
  ∧ stderr w' = stderr w ∧ dirs w' = dirs w.
Proof. unfold Fprintf. by destruct (write_fault P w path _) as [[n e]|]. Qed.

Lemma Fprintf_created path s w acc (m : gmap string (list byte)) :
  (∀ v bs, write_fault P v path bs = None) →
  files w = <[path := acc]> m →
  files (Fprintf P path s w) = <[path := acc ++ list_byte_of_string s]> m.
Proof.
  intros Hw Hfiles. unfold Fprintf. rewrite Hw. simpl.
  by rewrite Hfiles, alter_insert_eq.
Qed.

Lemma writeEntries_files path errs :
  (∀ v bs, write_fault P v path bs = None) →
  ∀ i w acc (m : gmap string (list byte)),
    files w = <[path := acc]> m →
    files (writeEntries P path i errs w)
    = <[path := acc ++ list_byte_of_string (reportEntries (S i) errs)]> m.
Proof.
  intros Hw. induction errs as [|e rest IH]; intros i w acc m Hfiles; simpl.
  - by rewrite app_nil_r.
  - erewrite IH; [| do 2 (eapply Fprintf_created; [done |]); done].
    f_equal. unfold reportEntry. rewrite Nat.add_1_r.
    by rewrite !bytes_app, <- !app_assoc.
Qed.

Lemma writeEntries_rest path errs i w :
  let w' := writeEntries P path i errs w in
  log w' = log w ∧ handles w' = handles w ∧ stdout w' = stdout w
  ∧ stderr w' = stderr w ∧ dirs w' = dirs w.
Proof.
  revert i w. induction errs as [|e rest IH]; intros i w; simpl; [done|].
  set (w1 := Fprintf P path (fmt_d (i + 1) +:+ ". Файл: " +:+ fileName e +:+ nl) w).
  set (w2 := Fprintf P path ("   Ошибка: " +:+ errorMsg e +:+ nl +:+ nl) w1).
  destruct (IH (i + 1) w2) as (-> & -> & -> & -> & ->).
  destruct (Fprintf_rest path ("   Ошибка: " +:+ errorMsg e +:+ nl +:+ nl) w1)
    as (Hl & Hh & Ho & He & Hd).
  fold w2 in Hl, Hh, Ho, He, Hd. rewrite Hl, Hh, Ho, He, Hd.
  apply Fprintf_rest.
Qed.

End ReportFacts.

(** ** The selection of the eligible files *)

Lemma eligibleb_spec entry : eligibleb entry = true ↔ Eligible entry.
Proof.
  unfold eligibleb, Eligible. rewrite andb_true_iff, negb_true_iff.
  by rewrite HasSuffix_ToLower.
Qed.

#[global] Instance Eligible_dec entry : Decision (Eligible entry).
Proof.
  destruct (eligibleb entry) eqn:E; [left | right].
  - by apply eligibleb_spec.
  - intros H%eligibleb_spec. congruence.
Defined.

Lemma collect_eligible webpFiles entry :
  collect webpFiles entry
  = if decide (Eligible entry) then webpFiles ++ [Name entry] else webpFiles.
Proof.
  unfold collect. destruct (decide (Eligible entry)) as [H | H].
  - apply eligibleb_spec, andb_true_iff in H as [-> H]. by rewrite H.
  - destruct (negb (IsDir entry)) eqn:Hd; [| done].
    destruct (HasSuffix _ _) eqn:Hs; [| done].
    exfalso. apply H, eligibleb_spec. unfold eligibleb. by rewrite Hd, Hs.
Qed.

Lemma fold_collect entries : ∀ webpFiles,
  fold_left collect entries webpFiles
  = webpFiles ++ (Name <$> filter Eligible entries).
Proof.
  induction entries as [|entry rest IH]; intros webpFiles; simpl.
  - by rewrite app_nil_r.
  - rewrite IH, collect_eligible, filter_cons.
    destruct (decide (Eligible entry)); [| done].
    by rewrite fmap_cons, <- app_assoc.
Qed.

Section DirectoryFacts.
Context {image : Type} (P : Platform image).
Implicit Types (w : World) (b : Batch) (inputDir outputDir : string).

Lemma writeReport_refused inputDir outputDir errs w err :
  create_fault P w (reportPathOf P inputDir outputDir) = Some err →
  writeReport P inputDir outputDir errs w
  = (Eprintf ("Предупреждение: не удалось создать файл отчета: " +:+ Error err +:+ nl)
       (logged (Create (reportPathOf P inputDir outputDir)) false w), false).
Proof. intros Hc. unfold writeReport, os_Create. by rewrite Hc. Qed.

Lemma writeReport_created inputDir outputDir errs w :
  let reportPath := reportPathOf P inputDir outputDir in
  let r := writeReport P inputDir outputDir errs w in
  create_fault P w reportPath = None →
  snd r = true
  ∧ log (fst r) = log w ++ [(Create reportPath, true)]
  ∧ handles (fst r) = {[reportPath]} ∪ handles w
  ∧ stderr (fst r) = stderr w
  ∧ ((∀ v bs, write_fault P v reportPath bs = None) →
     files (fst r) = <[reportPath := list_byte_of_string (reportText errs)]> (files w)).
Proof.
  intros reportPath r Hc. subst r. unfold writeReport, os_Create.
  fold reportPath. rewrite Hc.
  set (w0 := logged (Create reportPath) true _).
  set (w1 := Fprintf P reportPath ("Отчет об ошибках конвертации" +:+ nl) w0).
  set (w2 := Fprintf P reportPath ("================================" +:+ nl +:+ nl) w1).
  set (w3 := Fprintf P reportPath _ w2).
  destruct (writeEntries_rest P reportPath errs 0 w3) as (Hlog & Hh & _ & Herr & _).
  destruct (Fprintf_rest P reportPath
              ("Всего ошибок: " +:+ fmt_d (length errs) +:+ nl +:+ nl) w2)
    as (Hlog3 & Hh3 & _ & Herr3 & _). fold w3 in Hlog3, Hh3, Herr3.
  destruct (Fprintf_rest P reportPath ("================================" +:+ nl +:+ nl) w1)
    as (Hlog2 & Hh2 & _ & Herr2 & _). fold w2 in Hlog2, Hh2, Herr2.
  destruct (Fprintf_rest P reportPath ("Отчет об ошибках конвертации" +:+ nl) w0)
    as (Hlog1 & Hh1 & _ & Herr1 & _). fold w1 in Hlog1, Hh1, Herr1.
  cbn [fst snd log handles files stderr Printf].
  rewrite Hlog, Hh, Herr, Hlog3, Hh3, Herr3, Hlog2, Hh2, Herr2, Hlog1, Hh1, Herr1.
  split; [done|]. split; [done|]. split; [done|]. split; [done|].
  intros Hw.
  rewrite (writeEntries_files P reportPath errs Hw 0 w3
             (([] ++ list_byte_of_string ("Отчет об ошибках конвертации" +:+ nl))
                ++ list_byte_of_string ("================================" +:+ nl +:+ nl)
              ++ list_byte_of_string ("Всего ошибок: " +:+ fmt_d (length errs) +:+ nl +:+ nl))
             (files w)).
  - f_equal. unfold reportText.
    by rewrite !bytes_app, app_nil_l, <- !app_assoc.
  - subst w3 w2 w1. rewrite app_assoc.
    by do 3 (apply Fprintf_created; [done|]).
Qed.

(** The three ways the end of a batch run can go. *)
Lemma batchEnd_cases inputDir outputDir total b :
  let reportPath := reportPathOf P inputDir outputDir in
  let w' := batchEnd P inputDir outputDir total b in
  last (stdout w') = Some (summaryLine (successCount b) total)
  ∧ ((errors b = [] ∧ log w' = log (world b) ∧ files w' = files (world b)
      ∧ stderr w' = stderr (world b))
     ∨ (errors b ≠ []
        ∧ ∃ err, create_fault P (world b) reportPath = Some err
             ∧ log w' = log (world b) ++ [(Create reportPath, false)]
             ∧ files w' = files (world b)
             ∧ stderr w' = stderr (world b)
                 ++ ["Предупреждение: не удалось создать файл отчета: "
                     +:+ Error err +:+ nl])
     ∨ (errors b ≠ []
        ∧ create_fault P (world b) reportPath = None
        ∧ log w' = log (world b) ++ [(Create reportPath, true); (Close reportPath, true)]
        ∧ stderr w' = stderr (world b)
        ∧ ((∀ v bs, write_fault P v reportPath bs = None) →
           files w' = <[reportPath := list_byte_of_string (reportText (errors b))]>
                        (files (world b))))).
Proof.
  intros reportPath w'. subst w'. unfold batchEnd.
  destruct (decide (errors b = [])) as [He | He].
  { rewrite He. simpl. split; [apply last_snoc|]. by left. }
  assert ((0 <? length (errors b))%nat = true) as ->.
  { apply Nat.ltb_lt. destruct (errors b); [done | simpl; lia]. }
  destruct (create_fault P (world b) reportPath) as [err|] eqn:Hc.
  { rewrite (writeReport_refused _ _ _ _ _ Hc). simpl.
    split; [apply last_snoc|]. right. left. split; [done|]. by exists err. }
  destruct (writeReport_created inputDir outputDir (errors b) (world b) Hc)
    as (Hopened & Hlog & Hh & Herr & Hfiles).
  destruct (writeReport P inputDir outputDir (errors b) (world b)) as [w2 opened].
  simpl in Hopened, Hlog, Hh, Hfiles, Herr. subst opened.
  fold reportPath.
  cbn [log logged set_files set_handles set_dirs File_Write File_Close Printf Eprintf
       files handles stdout stderr fst snd].
  split; [apply last_snoc|]. right. right.
  rewrite Hlog, Hh, Herr, handle_open, <- app_assoc. done.
Qed.

(** The four ways a batch run can go. *)

Lemma convertDirectory_unlisted inputDir outputDir w err :
  read_dir P w inputDir = inr err →
  convertDirectory P inputDir outputDir w
  = (logged (ReadDir inputDir) false w, Some (Errorf_w msgReadDir err)).
Proof. intros H. unfold convertDirectory, os_ReadDir. by rewrite H. Qed.

Lemma convertDirectory_none inputDir outputDir w entries :
  read_dir P w inputDir = inl entries →
  listWebpFiles entries = [] →
  convertDirectory P inputDir outputDir w
  = (Printf ("WebP файлы не найдены в директории: " +:+ inputDir +:+ nl)
       (logged (ReadDir inputDir) true w), None).
Proof. intros H H0. unfold convertDirectory, os_ReadDir. by rewrite H, H0. Qed.

Lemma length_eqb_0 {A} (l : list A) : l ≠ [] → (length l =? 0)%nat = false.
Proof. by destruct l. Qed.

Lemma convertDirectory_unmade inputDir outputDir w entries err :
  read_dir P w inputDir = inl entries →
  listWebpFiles entries ≠ [] →
  needsMkdir inputDir outputDir = true →
  mkdir_fault P (listed inputDir (length (listWebpFiles entries)) w) outputDir
    = Some err →
  convertDirectory P inputDir outputDir w
  = (logged (MkdirAll outputDir) false
       (listed inputDir (length (listWebpFiles entries)) w),
     Some (Errorf_w msgMkdir err)).
Proof.
  intros H H0 Hn Hm. unfold convertDirectory, os_ReadDir. rewrite H.
  cbn [is_inl]. rewrite (length_eqb_0 _ H0).
  fold (needsMkdir inputDir outputDir). rewrite Hn.
  fold (listed inputDir (length (listWebpFiles entries)) w).
  unfold os_MkdirAll. by rewrite Hm.
Qed.

Lemma convertDirectory_batch inputDir outputDir w entries :
  read_dir P w inputDir = inl entries →
  listWebpFiles entries ≠ [] →
  (needsMkdir inputDir outputDir = true →
   mkdir_fault P (listed inputDir (length (listWebpFiles entries)) w) outputDir = None) →
  convertDirectory P inputDir outputDir w
  = (batchEnd P inputDir outputDir (length (listWebpFiles entries))
       (processAll P inputDir outputDir (listWebpFiles entries)
          (loopStart inputDir outputDir (length (listWebpFiles entries)) w)),
     None).
Proof.
  intros H H0 Hm. unfold convertDirectory, os_ReadDir. rewrite H.
  cbn [is_inl]. rewrite (length_eqb_0 _ H0).
  fold (needsMkdir inputDir outputDir).
  fold (listed inputDir (length (listWebpFiles entries)) w).
  unfold loopStart, batchEnd, os_MkdirAll.
  destruct (needsMkdir inputDir outputDir).
  - rewrite Hm by done.
    by destruct (if (0 <? _)%nat then _ else _) as [w2 []].
  - by destruct (if (0 <? _)%nat then _ else _) as [w2 []].
Qed.

(** How a batch run went, read off its result. *)
Lemma convertDirectory_inv inputDir outputDir w :
  let run := convertDirectory P inputDir outputDir w in
  match snd run with
  | Some e =>
      (∃ err, read_dir P w inputDir = inr err ∧ e = Errorf_w msgReadDir err
              ∧ fst run = logged (ReadDir inputDir) false w)
      ∨ (∃ entries err,
           read_dir P w inputDir = inl entries ∧ e = Errorf_w msgMkdir err
           ∧ fst run = logged (MkdirAll outputDir) false
                         (listed inputDir (length (listWebpFiles entries)) w))
  | None =>
      ∃ entries,
        read_dir P w inputDir = inl entries
        ∧ (listWebpFiles entries = []
           ∧ fst run = Printf ("WebP файлы не найдены в директории: " +:+ inputDir +:+ nl)
                         (logged (ReadDir inputDir) true w)
           ∨ listWebpFiles entries ≠ []
             ∧ fst run = batchEnd P inputDir outputDir (length (listWebpFiles entries))
                 (processAll P inputDir outputDir (listWebpFiles entries)
                    (loopStart inputDir outputDir (length (listWebpFiles entries)) w)))
  end.
Proof.
  intros run. subst run.
  destruct (read_dir P w inputDir) as [entries | err] eqn:Hread.
  2: { rewrite (convertDirectory_unlisted _ _ _ _ Hread). simpl. left. by exists err. }
  destruct (decide (listWebpFiles entries = [])) as [Hnone | Hsome].
  { rewrite (convertDirectory_none _ _ _ _ Hread Hnone). simpl.
    exists entries. split; [done|]. by left. }
  destruct (needsMkdir inputDir outputDir) eqn:Hn.
  - destruct (mkdir_fault P (listed inputDir (length (listWebpFiles entries)) w) outputDir)
      as [err|] eqn:Hm.
    + rewrite (convertDirectory_unmade _ _ _ _ _ Hread Hsome Hn Hm). simpl.
      right. by exists entries, err.
    + rewrite (convertDirectory_batch _ _ _ _ Hread Hsome (λ _, Hm)). simpl.
      exists entries. split; [done|]. by right.
  - rewrite (convertDirectory_batch _ _ _ _ Hread Hsome); [| by rewrite Hn].
    simpl. exists entries. split; [done|]. by right.
Qed.

Lemma loopStart_log inputDir outputDir n w :
  ∃ mk, log (loopStart inputDir outputDir n w) = log w ++ (ReadDir inputDir, true) :: mk
        ∧ Forall (λ e, e = (MkdirAll outputDir, true)) mk
        ∧ files (loopStart inputDir outputDir n w) = files w.
Proof.
  unfold loopStart. destruct (needsMkdir inputDir outputDir); simpl.
  - exists [(MkdirAll outputDir, true)]. rewrite <- app_assoc. by repeat constructor.
  - exists []. by repeat constructor.
Qed.

Lemma batchEnd_log inputDir outputDir total b :
  ∃ t, log (batchEnd P inputDir outputDir total b) = log (world b) ++ t
       ∧ Forall (λ e, fileCall e.1 = true) t.
Proof.
  destruct (batchEnd_cases inputDir outputDir total b)
    as (_ & [(_ & -> & _) | [(_ & err & _ & -> & _) | (_ & _ & -> & _)]]).
  - exists []. by rewrite app_nil_r.
  - eexists. split; [done|]. by repeat constructor.
  - eexists. split; [done|]. by repeat constructor.
Qed.

(** The calls of a batch run that got to its second loop. *)
Lemma batch_calls inputDir outputDir webpFiles w :
  let b := processAll P inputDir outputDir webpFiles
             (loopStart inputDir outputDir (length webpFiles) w) in
  ∃ d, since w (batchEnd P inputDir outputDir (length webpFiles) b)
       = (ReadDir inputDir, true) :: d
       ∧ Forall (λ e, e = (MkdirAll outputDir, true) ∨ fileCall e.1 = true) d
       ∧ ∀ f, In f webpFiles → ∃ ok, In (ReadFile (filepath_Join P inputDir f), ok) d.
Proof.
  intros b.
  destruct (loopStart_log inputDir outputDir (length webpFiles) w) as (mk & Hs & Hmk & _).
  destruct (loop_calls P inputDir outputDir webpFiles
              (mkBatch (loopStart inputDir outputDir (length webpFiles) w) [] 0))
    as (d & Hd & Hfile & Hall).
  destruct (batchEnd_log inputDir outputDir (length webpFiles) b) as (t & Ht & Hfile').
  exists (mk ++ d ++ t). split; [| split].
  - apply since_app. rewrite Ht. subst b. unfold processAll. rewrite Hd. simpl.
    rewrite Hs, <- !app_assoc. done.
  - rewrite !Forall_app. split; [| split].
    + eapply Forall_impl; [exact Hmk|]. by left.
    + eapply Forall_impl; [exact Hfile|]. by right.
    + eapply Forall_impl; [exact Hfile'|]. by right.
  - intros f Hf. destruct (Hall f Hf) as [ok Hok]. exists ok.
    apply in_app_iff. right. apply in_app_iff. by left.
Qed.

(** C5: [convertDirectory] returns an error only for a listing that fails
    or an output directory that cannot be made; in both cases the only
    calls made are the listing and the [MkdirAll], no file is touched, and
    conversely either of these failing is returned as an error.  Otherwise
    the conversion of every eligible file is attempted.  For each file of
    the loop: a conversion that fails is recorded under the file's name
    with a message carrying the error's text; after a conversion that
    returns no error the destination is looked up with [os.Stat], and a
    lookup that fails records, under the file's name, that the output was
    not found, a size of zero records that it is empty, and only a size
    that is not zero counts a success and records nothing; so a
    destination that is missing or empty after the conversion is always
    recorded as a failure.  Each file either counts as a success or adds
    exactly one failure, and the loop goes on in both cases: after the
    whole list the successes and the failures added are as many as the
    files. *)
Theorem convertDirectory_failures inputDir outputDir w :
  let run := convertDirectory P inputDir outputDir w in
  let calls := since w (fst run) in
  (∀ e, snd run = Some e →
     ((∃ err, read_dir P w inputDir = inr err ∧ e = Errorf_w msgReadDir err
              ∧ calls = [(ReadDir inputDir, false)])
      ∨ (∃ err, e = Errorf_w msgMkdir err
                ∧ calls = [(ReadDir inputDir, true); (MkdirAll outputDir, false)]))
     ∧ files (fst run) = files w)
  ∧ (In (ReadDir inputDir, false) calls ∨ In (MkdirAll outputDir, false) calls →
     is_Some (snd run))
  ∧ (snd run = None →
     ∃ entries,
       read_dir P w inputDir = inl entries
       ∧ ∀ f, In f (listWebpFiles entries) →
              attempted (ReadFile (filepath_Join P inputDir f)) w (fst run))
  ∧ (∀ b webpFile,
       let outputPath := outputPathOf P inputDir outputDir webpFile in
       let conv := convertWebPToPNG P (filepath_Join P inputDir webpFile)
                     outputPath (world b) in
       let b' := processFile P inputDir outputDir b webpFile in
       (∀ err, snd conv = Some err →
          errors b' = errors b ++ [conversionFailure webpFile err]
          ∧ successCount b' = successCount b)
       ∧ ((errors b' = errors b ∧ successCount b' = successCount b + 1)
          ∨ (∃ msg, errors b' = errors b ++ [mkConversionError webpFile msg]
                    ∧ successCount b' = successCount b))
       ∧ (snd conv = None →
          match snd (os_Stat P outputPath (fst conv)) with
          | inr _ =>
              errors b' = errors b ++
                [mkConversionError webpFile
                   ("Выходной файл " +:+ outputPath
                    +:+ " не найден после конвертации " +:+ webpFile)]
              ∧ successCount b' = successCount b
          | inl outputInfo =>
              if (Size outputInfo =? 0)%nat
              then errors b' = errors b ++
                     [mkConversionError webpFile
                        ("Выходной файл " +:+ outputPath
                         +:+ " пустой после конвертации " +:+ webpFile)]
                   ∧ successCount b' = successCount b
              else errors b' = errors b ∧ successCount b' = successCount b + 1
          end)
       ∧ (snd conv = None → ¬ verified (fst conv) outputPath →
          successCount b' = successCount b
          ∧ ∃ msg, errors b' = errors b ++ [mkConversionError webpFile msg]))
  ∧ (∀ webpFiles b,
       let b' := fold_left (processFile P inputDir outputDir) webpFiles b in
       (successCount b' + length (errors b')
        = successCount b + length (errors b) + length webpFiles)%nat
       ∧ ∃ es, errors b' = errors b ++ es
               ∧ (fileName <$> es) `sublist_of` webpFiles).
Proof.
  intros run calls. subst calls.
  pose proof (convertDirectory_inv inputDir outputDir w) as Hinv. cbv zeta in Hinv.
  fold run in Hinv. destruct run as [w' r]. simpl in *.
  split; [| split; [| split; [| split]]].
  - intros e ->.
    destruct Hinv as [(err & Hread & -> & ->) | (entries & err & Hread & -> & ->)].
    + split; [| done]. left. exists err. repeat split; [done|].
      apply since_app. done.
    + split; [| done]. right. exists err. split; [done|].
      apply since_app. simpl. by rewrite <- app_assoc.
  - destruct r as [e|]; [by eauto |]. intros Hin. exfalso.
    destruct Hinv as (entries & Hread & [[Hnone ->] | [Hsome ->]]).
    + rewrite (since_app w _ [(ReadDir inputDir, true)]) in Hin by done.
      destruct Hin as [Hin | Hin]; by in_cases Hin.
    + destruct (batch_calls inputDir outputDir (listWebpFiles entries) w)
        as (d & Hd & Hall & _).
      rewrite Hd in Hin. rewrite List.Forall_forall in Hall.
      destruct Hin as [[Hin | Hin] | [Hin | Hin]]; simplify_eq;
        by destruct (Hall _ Hin).
  - intros ->. destruct Hinv as (entries & Hread & [[Hnone ->] | [Hsome ->]]);
      exists entries; (split; [done|]).
    + rewrite Hnone. by intros.
    + destruct (batch_calls inputDir outputDir (listWebpFiles entries) w)
        as (d & Hd & _ & Hin).
      intros f Hf. destruct (Hin f Hf) as [ok Hok]. exists ok.
      rewrite Hd. by right.
  - intros b webpFile. split; [| split; [| split]].
    + intros err Herr.
      by rewrite (processFile_conv_error P inputDir outputDir b webpFile err Herr).
    + apply processFile_outcome.
    + apply processFile_stat.
    + apply processFile_unverified.
  - intros webpFiles b. apply loop_counts.
Qed.

(** C6: when the listing succeeds and the output directory, if needed, is
    made, the run returns success.  With [N] eligible files of which [K]
    failed, the failures are in the order of the files, the last line
    printed is the summary with [N - K] successes out of [N]; when [K = 0]
    (and when [N = 0]) nothing is called and no file written after the
    loop; when [K > 0] the report [conversion_errors.txt] is created in the
    output directory (the input one when none is given) and, once created
    and written without a failing write, holds exactly the header, the
    count [K] and the [K] entries numbered from one in the order of the
    failures, while a creation that fails only prints a warning. *)
Theorem convertDirectory_report inputDir outputDir w entries :
  let webpFiles := listWebpFiles entries in
  let N := length webpFiles in
  let run := convertDirectory P inputDir outputDir w in
  let b := processAll P inputDir outputDir webpFiles (loopStart inputDir outputDir N w) in
  let K := length (errors b) in
  let reportPath :=
    filepath_Join P (if String.eqb outputDir "" then inputDir else outputDir)
      "conversion_errors.txt" in
  read_dir P w inputDir = inl entries →
  (needsMkdir inputDir outputDir = true →
   mkdir_fault P (listed inputDir N w) outputDir = None) →
  snd run = None
  ∧ (N = 0 → since w (fst run) = [(ReadDir inputDir, true)] ∧ files (fst run) = files w)
  ∧ ((0 < N)%nat →
     successCount b = N - K ∧ (K ≤ N)%nat
     ∧ (fileName <$> errors b) `sublist_of` webpFiles
     ∧ last (stdout (fst run)) = Some (summaryLine (N - K) N)
     ∧ (K = 0 → since (world b) (fst run) = [] ∧ files (fst run) = files (world b))
     ∧ ((0 < K)%nat →
        ∃ created : bool,
          since (world b) (fst run)
          = (Create reportPath, created)
              :: (if created then [(Close reportPath, true)] else [])
          ∧ (created = true →
             (∀ v bs, write_fault P v reportPath bs = None) →
             files (fst run)
             = <[reportPath := list_byte_of_string (reportText (errors b))]>
                 (files (world b)))
          ∧ (created = false →
             files (fst run) = files (world b)
             ∧ ∃ err, last (stderr (fst run))
                      = Some ("Предупреждение: не удалось создать файл отчета: "
                              +:+ Error err +:+ nl))
          ∧ ((∀ v, create_fault P v reportPath = None) → created = true))).
Proof.
  intros webpFiles N run b K reportPath Hread Hmk.
  destruct (decide (webpFiles = [])) as [Hnone | Hsome].
  { subst run. rewrite (convertDirectory_none _ _ _ _ Hread Hnone). simpl.
    split; [done|]. split; [| subst N; rewrite Hnone; simpl; lia].
    intros _. split; [| done]. by apply since_app. }
  subst run. rewrite (convertDirectory_batch _ _ _ _ Hread Hsome Hmk). simpl.
  fold webpFiles N b. split; [done|]. split.
  { intros HN. subst N. by destruct webpFiles. }
  intros _.
  destruct (loop_counts P inputDir outputDir webpFiles
              (mkBatch (loopStart inputDir outputDir N w) [] 0))
    as (Hcount & es & Hes & Hsub).
  fold (processAll P inputDir outputDir webpFiles (loopStart inputDir outputDir N w))
    in Hcount, Hes. fold b in Hcount, Hes. simpl in Hcount, Hes. fold N K in Hcount.
  subst es.
  assert (successCount b = N - K)%nat as Hsucc by lia.
  split; [done|]. split; [lia|]. split; [done|].
  destruct (batchEnd_cases inputDir outputDir N b) as (Hsum & Hcases).
  cbv zeta in Hsum, Hcases. unfold reportPathOf in Hcases. fold reportPath in Hcases.
  rewrite Hsucc in Hsum. split; [done|].
  destruct Hcases as [(He & Hlog & Hfiles & _)
                     | [(He & err & Hc & Hlog & Hfiles & Herr)
                       | (He & Hc & Hlog & _ & Hfiles)]].
  - split.
    + intros _. split; [| done]. apply since_app. by rewrite app_nil_r.
    + subst K. rewrite He. simpl. lia.
  - split; [subst K; destruct (errors b); [done | simpl; lia] |].
    intros _. exists false. split; [by apply since_app|]. split; [done|]. split.
    + intros _. split; [done|]. exists err. rewrite Herr. apply last_snoc.
    + intros Hall. by rewrite Hall in Hc.
  - split; [subst K; destruct (errors b); [done | simpl; lia] |].
    intros _. exists true. split; [by apply since_app|]. by repeat split.
Qed.

(** C7: the files the batch works on are the names of the entries of the
    listing that are not directories and end in [.webp] whatever the case
    of the letters, in the order of the listing, and nothing else; it is
    this list the second loop runs over; and the only directory listed in a
    run is the input directory, once, first. *)
Theorem listWebpFiles_exact inputDir outputDir w :
  let run := convertDirectory P inputDir outputDir w in
  (∀ entries, listWebpFiles entries = Name <$> filter Eligible entries)
  ∧ (∀ entries name,
       In name (listWebpFiles entries)
       ↔ ∃ entry, In entry entries ∧ Name entry = name ∧ Eligible entry)
  ∧ (∀ entries,
       read_dir P w inputDir = inl entries → listWebpFiles entries ≠ [] →
       snd run = None →
       fst run = batchEnd P inputDir outputDir (length (listWebpFiles entries))
                   (processAll P inputDir outputDir (listWebpFiles entries)
                      (loopStart inputDir outputDir (length (listWebpFiles entries)) w)))
  ∧ (∃ ok rest,
       since w (fst run) = (ReadDir inputDir, ok) :: rest
       ∧ ∀ c r path, In (c, r) rest → c ≠ ReadDir path).
Proof.
  intros run.
  assert (∀ entries, listWebpFiles entries = Name <$> filter Eligible entries) as Hlist.
  { intros entries. unfold listWebpFiles. by rewrite fold_collect. }
  split; [done|]. split; [| split].
  - intros entries name. rewrite Hlist, <- list_elem_of_In, list_elem_of_fmap.
    split.
    + intros (entry & -> & [He Hin]%list_elem_of_filter).
      exists entry. by rewrite <- list_elem_of_In.
    + intros (entry & Hin & <- & He). exists entry. split; [done|].
      apply list_elem_of_filter. by rewrite list_elem_of_In.
  - intros entries Hread Hsome Hrun.
    pose proof (convertDirectory_inv inputDir outputDir w) as Hinv. cbv zeta in Hinv.
    fold run in Hinv. rewrite Hrun in Hinv.
    destruct Hinv as (entries' & Hread' & [[Hnone _] | [_ ->]]);
      rewrite Hread in Hread'; by simplify_eq.
  - pose proof (convertDirectory_inv inputDir outputDir w) as Hinv. cbv zeta in Hinv.
    fold run in Hinv. destruct (snd run) as [e|].
    + destruct Hinv as [(err & _ & _ & ->) | (entries & err & _ & _ & ->)].
      * exists false, []. split; [by apply since_app|]. by intros.
      * exists true, [(MkdirAll outputDir, false)]. split.
        { apply since_app. simpl. by rewrite <- app_assoc. }
        intros c r path Hin. by in_cases Hin.
    + destruct Hinv as (entries & _ & [[_ ->] | [_ ->]]).
      * exists true, []. split; [by apply since_app|]. by intros.
      * destruct (batch_calls inputDir outputDir (listWebpFiles entries) w)
          as (d & Hd & Hall & _).
        exists true, d. split; [done|]. intros c r path Hin.
        rewrite List.Forall_forall in Hall.
        destruct (Hall _ Hin) as [Heq | Hfile]; [by simplify_eq |].
        intros ->. by simpl in Hfile.
Qed.

(** C8: for a file name [stem ++ ext] with [ext] a [.webp] in any case, the
    PNG name is [stem ++ ".png"] and the destination is that name joined to
    the output directory, or to the input directory when no output
    directory is given; in the single-file path, with no output argument,
    the output is the input with its extension (its last dot-suffix after
    the last separator, possibly none) replaced by [.png], in the same
    location, and that is the path [main] converts to. *)
Theorem destination_paths :
  (∀ inputDir outputDir stem ext,
     isDotWebp ext →
     pngNameOf (stem +:+ ext) = stem +:+ ".png"
     ∧ outputPathOf P inputDir outputDir (stem +:+ ext)
       = filepath_Join P (if String.eqb outputDir "" then inputDir else outputDir)
           (stem +:+ ".png"))
  ∧ (∀ input,
       ∃ stem,
         input = stem +:+ Ext input
         ∧ singleOutput input "" = stem +:+ ".png"
         ∧ noSeparator (Ext input) = true
         ∧ location (singleOutput input "") = location input)
  ∧ (∀ prog input data w,
       files w !! input = Some data → stat_fault P w input = None →
       let run := convertWebPToPNG P input (singleOutput input "")
                    (logged (Stat input) true w) in
       fst (main P prog [input] w)
       = match snd run with
         | Some err => Eprintf ("Ошибка: " +:+ Error err +:+ nl) (fst run)
         | None =>
             Printf ("✓ Успешно конвертировано: " +:+ filepath_Base P input +:+ " -> "
                     +:+ filepath_Base P (singleOutput input "") +:+ nl) (fst run)
         end).
Proof.
  split; [| split].
  - intros inputDir outputDir stem ext Hext.
    assert (pngNameOf (stem +:+ ext) = stem +:+ ".png") as Hpng.
    { unfold pngNameOf. by rewrite (Ext_dotWebp stem ext Hext), TrimSuffix_app. }
    split; [done|]. unfold outputPathOf. rewrite Hpng.
    by destruct (String.eqb outputDir "").
  - intros input. exists (TrimSuffix input (Ext input)).
    pose proof (Ext_split input) as Hsplit. pose proof (Ext_noSeparator input) as Hsep.
    split; [done|]. split; [done|]. split; [done|].
    unfold singleOutput. simpl.
    rewrite location_app by done.
    rewrite <- Hsplit at 3. by rewrite location_app.
  - intros prog input data w Hdata Hstat run. subst run.
    unfold main, os_Stat. rewrite Hstat, Hdata. cbn [Mode_IsDir].
    destruct (convertWebPToPNG _ _ _ _) as [w1 [err|]]; done.
Qed.

End DirectoryFacts.

(** ** Runs on the sample platform *)

Import Sample.

(** JPEG bytes under a [.WEBP] name are converted. *)
Lemma convert_decode_fallback_jpeg :
  snd (convertWebPToPNG sound "in/b.WEBP" "out/b.png" threeFiles) = None
  ∧ files (fst (convertWebPToPNG sound "in/b.WEBP" "out/b.png" threeFiles)) !! "out/b.png"
    = Some [x89; x50; x4e; x47; x0a; x0b].
Proof.
  destruct (convert_decode_fallback sound "in/b.WEBP" "out/b.png" threeFiles jpegBytes
              eq_refl) as (_ & _ & _ & _ & _ & H).
  apply (H [x0a; x0b]); reflexivity.
Defined.

(** Bytes that are neither WebP nor JPEG: the error wraps the JPEG one. *)
Lemma convert_decode_error_message_text :
  let run := convertWebPToPNG sound "in/c.webp" "in/c.png" threeFiles in
  snd run = Some (Errorf_w msgDecode (errorString "invalid JPEG format: missing SOI marker"))
  ∧ Error (Errorf_w msgDecode (errorString "invalid JPEG format: missing SOI marker"))
    = msgDecode +:+ "invalid JPEG format: missing SOI marker"
  ∧ files (fst run) = files threeFiles.
Proof.
  exact (convert_decode_error_message sound "in/c.webp" "in/c.png" threeFiles textBytes
           (errorString "riff: missing RIFF chunk header")
           (errorString "invalid JPEG format: missing SOI marker")
           eq_refl eq_refl eq_refl).
Defined.

(** C2, as stated, fails: on bytes that are neither WebP nor JPEG the
    message returned carries the text of the JPEG error and not that of the
    WebP error. *)
Lemma convert_decode_error_drops_webp :
  webp_Decode sound textBytes = inr (errorString "riff: missing RIFF chunk header")
  ∧ jpeg_Decode sound textBytes = inr (errorString "invalid JPEG format: missing SOI marker")
  ∧ ∃ e, snd (convertWebPToPNG sound "in/c.webp" "in/c.png" threeFiles) = Some e
         ∧ carries (Error e) "invalid JPEG format: missing SOI marker" = true
         ∧ carries (Error e) "riff: missing RIFF chunk header" = false.
Proof.
  split; [reflexivity |]. split; [reflexivity |].
  eexists. split; [reflexivity |]. split; vm_compute; reflexivity.
Qed.

(** Converting the WebP file twice. *)
Lemma convert_twice_idempotent_sample :
  snd (convertWebPToPNG sound "in/a.webp" "out/a.png"
         (fst (convertWebPToPNG sound "in/a.webp" "out/a.png" threeFiles))) = None
  ∧ files (fst (convertWebPToPNG sound "in/a.webp" "out/a.png"
                  (fst (convertWebPToPNG sound "in/a.webp" "out/a.png" threeFiles))))
    = files (fst (convertWebPToPNG sound "in/a.webp" "out/a.png" threeFiles)).
Proof.
  destruct (convert_twice_idempotent sound "in/a.webp" "out/a.png" threeFiles)
    as [Hrun _]; [discriminate | reflexivity |].
  destruct Hrun as (Hsecond & Hfiles & _); [by intros .. |].
  by split.
Defined.


(** An encoder that writes nothing: the empty destination fails
    verification and is removed. *)
Lemma processFile_verifies_silent :
  let quiet := platform silent listing never in
  let b' := processFile quiet "in" "" (mkBatch threeFiles [] 0) "a.webp" in
  successCount b' = 0
  ∧ (∃ msg, errors b' = [mkConversionError "a.webp" msg])
  ∧ files (world b') !! "in/a.png" = None.
Proof.
  intros quiet b'.
  destruct (processFile_verifies quiet "in" "" (mkBatch threeFiles [] 0) "a.webp" []
              eq_refl) as (_ & _ & _ & Hnot & Hempty & _ & _).
  destruct Hnot as [Hcount Herrors].
  { intros (data & Hdata & Hne). vm_compute in Hdata. by simplify_eq. }
  destruct Hempty as (removed & _ & Hgone & Hremoved);
    [vm_compute; by left | reflexivity |].
  split; [exact Hcount |]. split; [exact Herrors |].
  apply Hgone, Hremoved. reflexivity.
Defined.

(** A disk that fills up while the PNG is written. *)
Lemma convert_failure_leaves_no_destination_full :
  let full := platform png listing (failing (PngEncode "out/a.png")) in
  let run := convertWebPToPNG full "in/a.webp" "out/a.png" threeFiles in
  (∃ err, snd run = Some (Errorf_w msgEncode err))
  ∧ files (fst run) !! "out/a.png" = None
  ∧ "out/a.png" ∉ handles (fst run).
Proof.
  intros full run.
  destruct (convert_failure_leaves_no_destination full "in/a.webp" "out/a.png" threeFiles)
    as (_ & _ & _ & Hencode).
  destruct Hencode as (before & removed & err & _ & Herr & Hclosed & Hgone & Hremoved).
  { vm_compute. tauto. }
  split; [by exists err |]. split; [| exact Hclosed].
  apply Hgone, Hremoved. reflexivity.
Defined.

(** A flush that fails: the PNG stays, the file is a failure. *)
Lemma sync_failure_keeps_destination_sample :
  let flaky := platform png listing (failing (Sync "in/a.png")) in
  let b' := processFile flaky "in" "" (mkBatch threeFiles [] 0) "a.webp" in
  successCount b' = 0
  ∧ (∃ err, errors b' = [conversionFailure "a.webp" (Errorf_w msgSync err)])
  ∧ is_Some (files (world b') !! "in/a.png").
Proof.
  intros flaky b'.
  destruct (sync_failure_keeps_destination flaky) as [_ Hbatch].
  destruct (Hbatch "in" "" (mkBatch threeFiles [] 0) "a.webp")
    as (err & img & bs & Herrors & Hcount & _ & Hfile & _).
  { vm_compute. tauto. }
  split; [exact Hcount |]. split; [by exists err |]. by exists bs.
Defined.

(** An output directory that cannot be made: nothing is converted. *)
Lemma convertDirectory_failures_mkdir :
  let locked := platform png listing (failing (MkdirAll "out")) in
  let run := convertDirectory locked "in" "out" threeFiles in
  (∃ err, snd run = Some (Errorf_w msgMkdir err))
  ∧ since threeFiles (fst run) = [(ReadDir "in", true); (MkdirAll "out", false)]
  ∧ files (fst run) = files threeFiles.
Proof.
  intros locked run.
  destruct (convertDirectory_failures locked "in" "out" threeFiles) as (Hfatal & _).
  destruct (Hfatal (Errorf_w msgMkdir (errorString "permission denied")) eq_refl)
    as [[(err & Hread & _) | (err & He & Hcalls)] Hfiles].
  - vm_compute in Hread. discriminate.
  - split; [by exists (errorString "permission denied") |]. by split.
Defined.

(** Three eligible files, one of them neither WebP nor JPEG. *)
Lemma convertDirectory_report_sample :
  let run := convertDirectory sound "in" "" threeFiles in
  snd run = None
  ∧ last (stdout (fst run)) = Some (summaryLine 2 3)
  ∧ ∃ msg, files (fst run) !! "in/conversion_errors.txt"
           = Some (list_byte_of_string (reportText [mkConversionError "c.webp" msg])).
Proof.
  intros run.
  destruct (convertDirectory_report sound "in" "" threeFiles listing eq_refl)
    as (Hrun & _ & Hsome).
  { intros H. vm_compute in H. discriminate. }
  split; [exact Hrun |].
  destruct Hsome as (_ & _ & _ & Hsummary & _ & Hreport).
  { vm_compute. lia. }
  split; [exact Hsummary |].
  destruct Hreport as (created & _ & Hfiles & _ & Hcreated).
  { vm_compute. lia. }
  eexists. unfold run. rewrite Hfiles by first [ reflexivity | apply Hcreated; reflexivity ].
  rewrite lookup_insert_eq. reflexivity.
Defined.

Lemma listWebpFiles_exact_sample :
  listWebpFiles listing = ["a.webp"; "b.WEBP"; "c.webp"].
Proof.
  destruct (listWebpFiles_exact sound "in" "" threeFiles) as (Hlist & _).
  rewrite Hlist. reflexivity.
Defined.

Lemma destination_paths_sample :
  outputPathOf sound "in" "out" "b.WEBP" = "out/b.png"
  ∧ singleOutput "pictures/b.WEBP" "" = "pictures/b.png".
Proof.
  destruct (destination_paths sound) as (Hbatch & Hsingle & _).
  split.
  - apply (Hbatch "in" "out" "b" ".WEBP").
    exists "W"%char, "E"%char, "B"%char, "P"%char. tauto.
  - destruct (Hsingle "pictures/b.WEBP") as (stem & Hstem & Hout & _).
    reflexivity.
Defined.

(** * More of the program

    ** What one conversion leaves alone *)

Section ConvertMore.
Context {image : Type} (P : Platform image).
Implicit Types (w : World) (inputPath outputPath : string).

Lemma convert_files_frame inputPath outputPath w path :
  path ≠ outputPath →
  files (fst (convertWebPToPNG P inputPath outputPath w)) !! path = files w !! path.
Proof.
  intros Hne. unfold_calls. each_path;
    by rewrite ?lookup_delete_ne, ?lookup_alter_ne, ?lookup_insert_ne.
Qed.

Lemma convert_quiet inputPath outputPath w :
  let w' := fst (convertWebPToPNG P inputPath outputPath w) in
  stdout w' = stdout w ∧ stderr w' = stderr w ∧ dirs w' = dirs w.
Proof. unfold_calls. by each_path. Qed.

Lemma convert_handles inputPath outputPath w :
  handles (fst (convertWebPToPNG P inputPath outputPath w)) ⊆ handles w.
Proof. unfold_calls. each_path; set_solver. Qed.

(** X1: a conversion changes no file but its destination (the input stays
    as it is unless it is the destination), prints nothing on either
    stream and makes no directory. *)
Theorem convert_touches_only_destination inputPath outputPath w :
  let w' := fst (convertWebPToPNG P inputPath outputPath w) in
  (∀ path, path ≠ outputPath → files w' !! path = files w !! path)
  ∧ (inputPath ≠ outputPath → files w' !! inputPath = files w !! inputPath)
  ∧ stdout w' = stdout w ∧ stderr w' = stderr w ∧ dirs w' = dirs w.
Proof.
  intros w'. split; [| split].
  - intros path. apply convert_files_frame.
  - apply convert_files_frame.
  - apply convert_quiet.
Qed.

(** X2: the handle on the destination never outlives the call: once the
    destination is created, every way out closes it (the deferred [Close],
    after the explicit one when the encoding fails); when it is not
    created, no [Close] is called and the handles are as before. *)
Theorem convert_releases_handle inputPath outputPath w :
  let w' := fst (convertWebPToPNG P inputPath outputPath w) in
  let calls := since w w' in
  (In (Create outputPath, true) calls →
     handles w' = handles w ∖ {[outputPath]}
     ∧ ∃ before, calls = before ++ [(Close outputPath, true)]
                 ∨ calls = before ++ [(Close outputPath, true);
                                      (Remove outputPath, true);
                                      (Close outputPath, false)]
                 ∨ calls = before ++ [(Close outputPath, true);
                                      (Remove outputPath, false);
                                      (Close outputPath, false)])
  ∧ (¬ In (Create outputPath, true) calls →
     handles w' = handles w ∧ ¬ attempted (Close outputPath) w w').
Proof.
  intros w' calls. subst w' calls.
  unfold_calls. each_path; present; read_log.
  all: split;
    [ intros Hin; in_cases Hin; (split; [set_solver |]);
      first [ eexists [_; _; _; _]; left; reflexivity
            | eexists [_; _; _; _]; right; left; reflexivity
            | eexists [_; _; _; _]; right; right; reflexivity
            | eexists [_; _; _; _; _]; left; reflexivity
            | eexists [_; _; _; _; _]; right; left; reflexivity
            | eexists [_; _; _; _; _]; right; right; reflexivity
            | eexists [_; _; _; _; _; _]; left; reflexivity ]
    | intros Hno;
      first [ exfalso; apply Hno; simpl; by eauto 10
            | split; [done |]; intros [ok Hin]; by in_cases Hin ] ].
Qed.

(** The error returned, by the call that failed: what each call of
    [convertWebPToPNG] returned up to it, and the calls made. *)
Lemma convert_error_stages inputPath outputPath w e :
  let run := convertWebPToPNG P inputPath outputPath w in
  let calls := since w (fst run) in
  let read := os_ReadFile P inputPath w in
  snd run = Some e →
  match snd read with
  | inr err => e = Errorf_w msgRead err ∧ calls = [(ReadFile inputPath, false)]
  | inl data =>
      let dec := decodeImage P data (fst read) in
      match snd dec with
      | inr err =>
          is_inl (webp_Decode P data) = false ∧ jpeg_Decode P data = inr err
          ∧ e = Errorf_w msgDecode err
          ∧ calls = [(ReadFile inputPath, true); (WebpDecode data, false);
                     (JpegDecode data, false)]
      | inl img =>
          let created := os_Create P outputPath (fst dec) in
          decoded P data img
          ∧ match snd created with
            | Some err =>
                e = Errorf_w msgCreate err
                ∧ calls = since w (fst dec) ++ [(Create outputPath, false)]
            | None =>
                let enc := call_png_Encode P outputPath img (fst created) in
                match snd enc with
                | Some err =>
                    e = Errorf_w msgEncode err
                    ∧ ∃ removed : bool,
                        calls = since w (fst created)
                                ++ [(PngEncode outputPath, false); (Close outputPath, true);
                                    (Remove outputPath, removed); (Close outputPath, false)]
                | None =>
                    ∃ err, snd (File_Sync P outputPath (fst enc)) = Some err
                           ∧ e = Errorf_w msgSync err
                           ∧ calls = since w (fst enc)
                                     ++ [(Sync outputPath, false); (Close outputPath, true)]
                end
            end
      end
  end.
Proof.
  intros run calls read. subst run calls read. cbv zeta.
  unfold decodeImage, decoded. unfold_calls.
  each_path; present; intros He; simplify_eq.
  all: unfold since;
    cbn [log logged set_files set_handles set_dirs File_Write Printf Eprintf files
         handles fst snd];
    rewrite ?handle_open, ?handle_closed; rewrite <- ?app_assoc;
    rewrite ?drop_app_length; cbn [app].
  all: split_and?; try done; try (by left); try (by right); by eauto.
Qed.

(** X3: an error of a conversion is one of five, each the wrapping of the
    error that the failing call itself returned, in the state the calls
    before it left: the read of the input; the JPEG decoding, after the
    WebP one failed; the creation of the destination, after an image was
    decoded; the encoding into the created file; the sync of the encoded
    file.  That call is where the log stops (but for the closing and
    removal of the destination). *)
Theorem convert_error_kinds inputPath outputPath w e :
  let run := convertWebPToPNG P inputPath outputPath w in
  let calls := since w (fst run) in
  let read := os_ReadFile P inputPath w in
  snd run = Some e →
  (∃ err, snd read = inr err ∧ e = Errorf_w msgRead err
          ∧ calls = [(ReadFile inputPath, false)])
  ∨ ∃ data,
      snd read = inl data
      ∧ let dec := decodeImage P data (fst read) in
        (∃ err, snd dec = inr err ∧ is_inl (webp_Decode P data) = false
                ∧ jpeg_Decode P data = inr err ∧ e = Errorf_w msgDecode err
                ∧ calls = [(ReadFile inputPath, true); (WebpDecode data, false);
                           (JpegDecode data, false)])
        ∨ ∃ img,
            snd dec = inl img ∧ decoded P data img
            ∧ let created := os_Create P outputPath (fst dec) in
              (∃ err, snd created = Some err ∧ e = Errorf_w msgCreate err
                      ∧ calls = since w (fst dec) ++ [(Create outputPath, false)])
              ∨ snd created = None
                ∧ let enc := call_png_Encode P outputPath img (fst created) in
                  (∃ err (removed : bool),
                     snd enc = Some err ∧ e = Errorf_w msgEncode err
                     ∧ calls = since w (fst created)
                               ++ [(PngEncode outputPath, false); (Close outputPath, true);
                                   (Remove outputPath, removed); (Close outputPath, false)])
                  ∨ snd enc = None
                    ∧ ∃ err, snd (File_Sync P outputPath (fst enc)) = Some err
                             ∧ e = Errorf_w msgSync err
                             ∧ calls = since w (fst enc)
                                       ++ [(Sync outputPath, false); (Close outputPath, true)].
Proof.
  intros run calls read He.
  pose proof (convert_error_stages inputPath outputPath w e He) as Hst.
  cbv zeta in Hst. fold run calls read in Hst. cbv zeta.
  destruct (snd read) as [data | err]; [| left; by exists err].
  right. exists data. split; [done |].
  destruct (snd (decodeImage P data (fst read))) as [img | err];
    [| destruct Hst as (Hweb & Hjpeg & -> & Hcalls); left; by exists err].
  destruct Hst as [Himg Hst]. right. exists img. split; [done |]. split; [done |].
  destruct (snd (os_Create P outputPath _)) as [err |];
    [destruct Hst as [-> Hcalls]; left; by exists err |].
  right. split; [done |].
  destruct (snd (call_png_Encode P outputPath img _)) as [err |].
  - destruct Hst as (-> & removed & Hcalls). left. by exists err, removed.
  - right. by split.
Qed.

(** X4: a conversion that returns no error has read the input, decoded it
    (as WebP, or as JPEG after WebP failed), created the destination,
    encoded, flushed and closed it, in this order and with nothing else
    called; the destination holds the PNG bytes of the decoded image,
    whatever it held before, and the other files are as they were. *)
Theorem convert_success_result inputPath outputPath w :
  let run := convertWebPToPNG P inputPath outputPath w in
  snd run = None →
  ∃ data img bs decodes,
    files w !! inputPath = Some data
    ∧ decoded P data img
    ∧ png_bytes P img = inl bs
    ∧ files (fst run) = <[outputPath := bs]> (files w)
    ∧ (decodes = [(WebpDecode data, true)]
       ∨ decodes = [(WebpDecode data, false); (JpegDecode data, true)])
    ∧ since w (fst run)
      = (ReadFile inputPath, true) :: decodes
        ++ [(Create outputPath, true); (PngEncode outputPath, true);
            (Sync outputPath, true); (Close outputPath, true)].
Proof.
  intros run. subst run. unfold decoded.
  unfold_calls. each_path; present; read_log; intros Hnil; simplify_eq.
  all: rewrite files_created.
  - eexists _, _, _, [_]. split_and!; [done | by left | done | done | by left | done].
  - eexists _, _, _, [_; _]. split_and!; [done | | done | done | by right | done].
    right. split; [| done].
    by match goal with H : webp_Decode _ _ = inr _ |- _ => rewrite H end.
Qed.

End ConvertMore.

(** The destination is a file that already holds something else. *)
Lemma convert_touches_only_destination_sample :
  files (fst (convertWebPToPNG sound "in/a.webp" "in/c.webp" threeFiles)) !! "in/a.webp"
  = Some webpBytes.
Proof.
  destruct (convert_touches_only_destination sound "in/a.webp" "in/c.webp" threeFiles)
    as (_ & Hinput & _).
  rewrite Hinput; [reflexivity | discriminate].
Defined.

Lemma convert_releases_handle_sample :
  handles (fst (convertWebPToPNG (platform png listing (failing (Sync "out/a.png")))
                  "in/a.webp" "out/a.png" threeFiles)) = ∅.
Proof.
  destruct (convert_releases_handle (platform png listing (failing (Sync "out/a.png")))
              "in/a.webp" "out/a.png" threeFiles) as [Hcreated _].
  destruct Hcreated as [-> _]; [vm_compute; tauto | reflexivity].
Defined.

Lemma convert_error_kinds_sample :
  snd (os_Create (platform png listing (failing (Create "out/a.png"))) "out/a.png"
         (fst (decodeImage (platform png listing (failing (Create "out/a.png")))
                 webpBytes
                 (fst (os_ReadFile (platform png listing (failing (Create "out/a.png")))
                         "in/a.webp" threeFiles)))))
  = Some (errorString "permission denied")
  ∧ since threeFiles
      (fst (convertWebPToPNG (platform png listing (failing (Create "out/a.png")))
              "in/a.webp" "out/a.png" threeFiles))
    = [(ReadFile "in/a.webp", true); (WebpDecode webpBytes, true);
       (Create "out/a.png", false)].
Proof.
  destruct (convert_error_kinds (platform png listing (failing (Create "out/a.png")))
              "in/a.webp" "out/a.png" threeFiles
              (Errorf_w msgCreate (errorString "permission denied")) eq_refl)
    as [(err & Hread & _) | (data & Hread & Hdec)]; [discriminate Hread |].
  vm_compute in Hread. injection Hread as <-.
  destruct Hdec as [(err & Hdec & _) | (img & Hdec & _ & Hcreate)];
    [discriminate Hdec |].
  destruct Hcreate as [(err & Hcreate & He & Hcalls) | (Hcreate & _)];
    [| discriminate Hcreate].
  split; [reflexivity | exact Hcalls].
Defined.

Lemma convert_success_result_sample :
  files (fst (convertWebPToPNG sound "in/a.webp" "in/c.webp" threeFiles)) !! "in/c.webp"
  = Some [x89; x50; x4e; x47; x01; x02; x03].
Proof.
  destruct (convert_success_result sound "in/a.webp" "in/c.webp" threeFiles eq_refl)
    as (data & img & bs & decodes & Hdata & Himg & Hbs & Hfiles & _).
  rewrite Hfiles, lookup_insert_eq.
  vm_compute in Hdata. injection Hdata as <-.
  destruct Himg as [Himg | [Hw _]]; [| vm_compute in Hw; discriminate].
  vm_compute in Himg. injection Himg as <-.
  vm_compute in Hbs. by injection Hbs as <-.
Defined.

(** ** The entry point *)

Section MainFacts.
Context {image : Type} (P : Platform image).
Implicit Types (w : World) (input output prog : string).

Lemma Usage_lines prog w :
  ∃ lines, stderr (Usage prog w) = stderr w ++ lines ∧ length lines = 10
           ∧ log (Usage prog w) = log w ∧ files (Usage prog w) = files w
           ∧ stdout (Usage prog w) = stdout w ∧ handles (Usage prog w) = handles w.
Proof.
  unfold Usage. cbn [Eprintf stderr log files stdout handles].
  eexists. rewrite <- !app_assoc. split; [reflexivity |]. done.
Qed.

(** X5: with no argument, [main] prints the ten lines of the usage on the
    error stream and exits with status 1 without calling the system; with
    an input that [os.Stat] refuses (a path that does not exist), it
    prints the error, exits with status 1, and [Stat] is its only call.
    No file is touched and nothing is printed on the standard output. *)
Theorem main_rejects_bad_input prog w :
  (let run := main P prog [] w in
   snd run = 1 ∧ since w (fst run) = [] ∧ files (fst run) = files w
   ∧ stdout (fst run) = stdout w
   ∧ ∃ lines, stderr (fst run) = stderr w ++ lines ∧ length lines = 10)
  ∧ (∀ input rest err,
       snd (os_Stat P input w) = inr err →
       let run := main P prog (input :: rest) w in
       snd run = 1 ∧ since w (fst run) = [(Stat input, false)]
       ∧ files (fst run) = files w ∧ stdout (fst run) = stdout w
       ∧ stderr (fst run) = stderr w ++ ["Ошибка: " +:+ Error err +:+ nl]).
Proof.
  split.
  - destruct (Usage_lines prog w) as (lines & Herr & Hlen & Hlog & Hfiles & Hout & _).
    simpl. split; [done |]. split; [| split; [done | split; [done |]]].
    + apply since_app. by rewrite Hlog, app_nil_r.
    + by exists lines.
  - intros input rest err Hstat. unfold main.
    destruct (os_Stat P input w) as [w0 r] eqn:Hs. simpl in Hstat. subst r.
    unfold os_Stat in Hs. each_path; simpl; split_and!; try done; by apply since_app.
Qed.

(** X6: on a path that is a file, [main] converts it, to the second
    argument when there is one that is not empty and to the derived path
    otherwise, further arguments being ignored.  Its status is 0 exactly
    when the conversion returns no error; it then prints one line on the
    standard output, and otherwise the error on the error stream.  Beyond
    the [Stat] of the input it calls nothing but what the conversion
    calls: the destination is not looked at again, so a destination left
    empty by the encoder still counts as a success. *)
Theorem main_single_file prog input rest w info :
  snd (os_Stat P input w) = inl info →
  Mode_IsDir info = false →
  let conv := convertWebPToPNG P input (singleOutput input (outputArg rest))
                (logged (Stat input) true w) in
  let run := main P prog (input :: rest) w in
  (snd run = 0 ↔ snd conv = None)
  ∧ (snd run = 0 ∨ snd run = 1)
  ∧ since w (fst run) = (Stat input, true) :: since (logged (Stat input) true w) (fst conv)
  ∧ files (fst run) = files (fst conv)
  ∧ (snd conv = None →
       stderr (fst run) = stderr w
       ∧ ∃ line, stdout (fst run) = stdout w ++ [line])
  ∧ (∀ e, snd conv = Some e →
       stdout (fst run) = stdout w
       ∧ stderr (fst run) = stderr w ++ ["Ошибка: " +:+ Error e +:+ nl])
  ∧ (∀ path ok, ¬ In (Stat path, ok) (since (logged (Stat input) true w) (fst conv))).
Proof.
  intros Hstat Hfile conv run. subst run. unfold main. fold (outputArg rest).
  assert (os_Stat P input w = (logged (Stat input) true w, inl info)) as ->.
  { unfold os_Stat in *. each_path; done. }
  rewrite Hfile. fold conv.
  destruct (convert_calls P input (singleOutput input (outputArg rest))
              (logged (Stat input) true w)) as (ok & d & Hlog & Hd).
  destruct (convert_quiet P input (singleOutput input (outputArg rest))
              (logged (Stat input) true w)) as (Hout & Herr & _).
  fold conv in Hlog, Hout, Herr. simpl in Hout, Herr.
  assert (∀ path r, ¬ In (Stat path, r) (since (logged (Stat input) true w) (fst conv)))
    as Hnostat.
  { intros path r. rewrite (since_app _ _ _ Hlog). intros [Hin | Hin]; [done |].
    unfold_calls. subst conv. revert Hlog Hin. clear.
    each_path; rewrite <- ?app_assoc; cbn [app]; intros Hlog Hin;
      apply app_inv_head in Hlog; simplify_eq; by in_cases Hin. }
  assert (since w (fst conv)
          = (Stat input, true) :: since (logged (Stat input) true w) (fst conv)) as Hcalls.
  { rewrite (since_app _ _ _ Hlog). apply since_app. rewrite Hlog. simpl.
    by rewrite <- app_assoc. }
  destruct conv as [w1 [e |]]; simpl in *.
  - split_and!; try done; [by right | intros e' [= <-]; by rewrite Hout, Herr].
  - split_and!; try done; [by left |].
    intros _. rewrite Hout, Herr. split; [done |]. by eexists.
Qed.

(** X7: on a path that is a directory, [main] runs the batch on it with the
    second argument as output directory.  Its status is 1 exactly when the
    listing of the directory or the making of the output directory fails,
    and the error is then printed; files that fail to convert leave the
    status at 0. *)
Theorem main_directory prog input rest w info :
  snd (os_Stat P input w) = inl info →
  Mode_IsDir info = true →
  let batch := convertDirectory P input (outputArg rest) (logged (Stat input) true w) in
  let run := main P prog (input :: rest) w in
  let calls := since (logged (Stat input) true w) (fst batch) in
  (snd run = 0 ↔ snd batch = None)
  ∧ (snd run = 1
     ↔ In (ReadDir input, false) calls ∨ In (MkdirAll (outputArg rest), false) calls)
  ∧ files (fst run) = files (fst batch)
  ∧ stdout (fst run) = stdout (fst batch)
  ∧ (snd batch = None → fst run = fst batch)
  ∧ (∀ e, snd batch = Some e →
       stderr (fst run) = stderr (fst batch) ++ ["Ошибка: " +:+ Error e +:+ nl]).
Proof.
  intros Hstat Hdir batch run calls. subst run. unfold main. fold (outputArg rest).
  assert (os_Stat P input w = (logged (Stat input) true w, inl info)) as ->.
  { unfold os_Stat in *. each_path; done. }
  rewrite Hdir. fold batch.
  pose proof (convertDirectory_inv P input (outputArg rest) (logged (Stat input) true w))
    as Hinv. cbv zeta in Hinv. fold batch in Hinv. subst calls.
  destruct batch as [w1 [e |]]; simpl in *.
  - split_and!; try done; [| by intros e' [= <-]].
    split; [intros _ | done].
    destruct Hinv as [(err & _ & _ & ->) | (entries & err & _ & _ & ->)].
    + left. rewrite (since_app _ _ [(ReadDir input, false)]) by done. by left.
    + right. erewrite since_app; [| simpl; by rewrite <- app_assoc]. simpl. auto.
  - split_and!; try done. split; [done |]. intros Hin. exfalso.
    destruct Hinv as (entries & Hread & [[Hnone ->] | [Hsome ->]]).
    + rewrite (since_app _ _ [(ReadDir input, true)]) in Hin by done.
      destruct Hin as [Hin | Hin]; by in_cases Hin.
    + destruct (batch_calls P input (outputArg rest) (listWebpFiles entries)
                  (logged (Stat input) true w)) as (d & Hd & Hall & _).
      rewrite Hd in Hin. rewrite List.Forall_forall in Hall.
      destruct Hin as [[Hin | Hin] | [Hin | Hin]]; simplify_eq;
        by destruct (Hall _ Hin).
Qed.

End MainFacts.

(** ** Names and paths of the destinations *)

Lemma append_inv_head s a b : s +:+ a = s +:+ b → a = b.
Proof.
  induction s as [|c s IH]; [done |]. rewrite !app_cons. intros [= H]. by apply IH.
Qed.

(** The last byte of a string that ends with a given non-empty string. *)
Lemma get_last_append s u :
  u ≠ "" →
  String.get (String.length (s +:+ u) - 1) (s +:+ u)
  = String.get (String.length u - 1) u.
Proof.
  intros Hu. rewrite length_append.
  replace (String.length s + String.length u - 1)
    with (String.length s + (String.length u - 1)) by (destruct u; [done | simpl; lia]).
  apply get_app_r.
Qed.

Lemma pngNameOf_eligible stem ext :
  isDotWebp ext → pngNameOf (stem +:+ ext) = stem +:+ ".png".
Proof.
  intros Hext. unfold pngNameOf. by rewrite (Ext_dotWebp stem ext Hext), TrimSuffix_app.
Qed.

Lemma isDotWebp_length ext : isDotWebp ext → String.length ext = 5.
Proof. by intros (c1 & c2 & c3 & c4 & -> & _). Qed.

Section PathFacts.
Context {image : Type} (P : Platform image).

(** X8: in the single-file path with no output argument, the derived
    output is the input itself exactly when the extension of the input is
    [.png]; a conversion that succeeds then replaces the input by its own
    PNG encoding. *)
Theorem single_output_is_input input :
  (singleOutput input "" = input ↔ Ext input = ".png")
  ∧ (Ext input = ".png" →
     ∀ w, let run := convertWebPToPNG P input (singleOutput input "") w in
          snd run = None →
          ∃ data img bs,
            files w !! input = Some data ∧ decoded P data img
            ∧ png_bytes P img = inl bs
            ∧ files (fst run) !! input = Some bs).
Proof.
  assert (singleOutput input "" = input ↔ Ext input = ".png") as Hiff.
  { unfold singleOutput. simpl. split.
    - intros H. symmetry.
      apply (append_inv_head (TrimSuffix input (Ext input))).
      by rewrite Ext_split.
    - intros H. rewrite <- H. apply Ext_split. }
  split; [done |]. intros Hext w run Hnil. subst run.
  rewrite (proj2 Hiff Hext) in *.
  destruct (convert_success P input input w Hnil) as (data & img & bs & ? & ? & ? & Hfiles).
  exists data, img, bs. by rewrite Hfiles, lookup_insert_eq.
Qed.

(** X9: the PNG name of an eligible file is never the name of the file
    and is never itself eligible, so a batch never converts to its own
    input name and never takes its outputs as inputs; and two names that
    differ only in the case of the letters of [.webp] get the same PNG
    name and the same destination. *)
Theorem pngName_of_eligible inputDir outputDir stem ext ext' :
  isDotWebp ext →
  isDotWebp ext' →
  pngNameOf (stem +:+ ext) ≠ stem +:+ ext
  ∧ HasSuffix (ToLower (pngNameOf (stem +:+ ext))) ".webp" = false
  ∧ pngNameOf (stem +:+ ext) = pngNameOf (stem +:+ ext')
  ∧ outputPathOf P inputDir outputDir (stem +:+ ext)
    = outputPathOf P inputDir outputDir (stem +:+ ext').
Proof.
  intros Hext Hext'.
  rewrite (pngNameOf_eligible stem ext Hext).
  split; [| split; [| split]].
  - intros H%append_inv_head. apply isDotWebp_length in Hext. by rewrite <- H in Hext.
  - destruct (HasSuffix _ _) eqn:Hs; [| done]. exfalso.
    apply HasSuffix_ToLower in Hs as (stem' & ext'' & Heq & Hw).
    pose proof (get_last_append stem ".png" ltac:(done)) as Hlast.
    rewrite Heq in Hlast.
    destruct Hw as (c1 & c2 & c3 & c4 & -> & _ & _ & _ & Hp).
    rewrite get_last_append in Hlast by done. simpl in Hlast.
    destruct Hp as [-> | ->]; discriminate.
  - by rewrite (pngNameOf_eligible stem ext' Hext').
  - unfold outputPathOf.
    by rewrite (pngNameOf_eligible stem ext Hext), (pngNameOf_eligible stem ext' Hext').
Qed.

End PathFacts.

Lemma single_output_is_input_sample :
  ∃ bs, files (fst (convertWebPToPNG sound "a.png" (singleOutput "a.png" "")
                      (disk [("a.png", webpBytes)]))) !! "a.png" = Some bs.
Proof.
  destruct (single_output_is_input sound "a.png") as [_ Hself].
  destruct (Hself eq_refl (disk [("a.png", webpBytes)]) eq_refl)
    as (data & img & bs & _ & _ & _ & Hfile).
  by exists bs.
Defined.

Lemma pngName_of_eligible_sample :
  pngNameOf "a.webp" = pngNameOf "a.WEBP".
Proof.
  refine (proj1 (proj2 (proj2 (pngName_of_eligible sound "in" "" "a" ".webp" ".WEBP" _ _)))).
  - exists "w"%char, "e"%char, "b"%char, "p"%char. tauto.
  - exists "W"%char, "E"%char, "B"%char, "P"%char. tauto.
Defined.

(** ** What a batch run leaves alone *)

Section BatchMore.
Context {image : Type} (P : Platform image).
Implicit Types (w : World) (b : Batch) (inputDir outputDir webpFile path : string).

Lemma processFile_frame inputDir outputDir b webpFile path :
  path ≠ outputPathOf P inputDir outputDir webpFile →
  files (world (processFile P inputDir outputDir b webpFile)) !! path
  = files (world b) !! path.
Proof.
  intros Hne. unfold processFile.
  pose proof (convert_files_frame P (filepath_Join P inputDir webpFile)
                (outputPathOf P inputDir outputDir webpFile) (world b) path Hne) as Hconv.
  destruct (convertWebPToPNG _ _ _ _) as [w1 [err |]]; simpl in *; [done |].
  unfold os_Stat, os_Remove. each_path; by rewrite ?lookup_delete_ne.
Qed.

Lemma processFile_handles inputDir outputDir b webpFile :
  handles (world (processFile P inputDir outputDir b webpFile)) ⊆ handles (world b).
Proof.
  unfold processFile.
  pose proof (convert_handles P (filepath_Join P inputDir webpFile)
                (outputPathOf P inputDir outputDir webpFile) (world b)) as Hconv.
  destruct (convertWebPToPNG _ _ _ _) as [w1 [err |]]; simpl in *; [done |].
  unfold os_Stat, os_Remove. by each_path.
Qed.

Lemma loop_frame inputDir outputDir webpFiles path : ∀ b,
  (∀ f, In f webpFiles → path ≠ outputPathOf P inputDir outputDir f) →
  files (world (fold_left (processFile P inputDir outputDir) webpFiles b)) !! path
  = files (world b) !! path.
Proof.
  induction webpFiles as [|f rest IH]; intros b Hne; simpl; [done |].
  rewrite IH by (intros g Hg; apply Hne; by right).
  apply processFile_frame, Hne. by left.
Qed.

Lemma loop_handles inputDir outputDir webpFiles : ∀ b,
  handles (world (fold_left (processFile P inputDir outputDir) webpFiles b))
  ⊆ handles (world b).
Proof.
  induction webpFiles as [|f rest IH]; intros b; simpl; [done |].
  etransitivity; [apply IH | apply processFile_handles].
Qed.

Lemma Fprintf_frame path' s w path :
  path ≠ path' → files (Fprintf P path' s w) !! path = files w !! path.
Proof.
  intros Hne. unfold Fprintf.
  destruct (write_fault P w path' _) as [[n e] |]; simpl; by rewrite lookup_alter_ne.
Qed.

Lemma writeEntries_frame path' errs path : ∀ i w,
  path ≠ path' → files (writeEntries P path' i errs w) !! path = files w !! path.
Proof.
  induction errs as [|e rest IH]; intros i w Hne; simpl; [done |].
  by rewrite IH, !Fprintf_frame.
Qed.

Lemma batchEnd_frame inputDir outputDir total b path :
  path ≠ reportPathOf P inputDir outputDir →
  files (batchEnd P inputDir outputDir total b) !! path = files (world b) !! path.
Proof.
  intros Hne. unfold batchEnd.
  destruct (0 <? length (errors b))%nat; [| done].
  unfold writeReport, os_Create.
  destruct (create_fault P (world b) _) as [err |]; [done |].
  cbn [File_Close logged set_handles Printf files].
  rewrite writeEntries_frame, !Fprintf_frame by done. simpl.
  by rewrite lookup_insert_ne.
Qed.

Lemma batchEnd_handles inputDir outputDir total b :
  handles (batchEnd P inputDir outputDir total b) ⊆ handles (world b).
Proof.
  unfold batchEnd.
  destruct (0 <? length (errors b))%nat; [| done].
  destruct (create_fault P (world b) (reportPathOf P inputDir outputDir)) as [err |] eqn:Hc.
  - by rewrite (writeReport_refused P _ _ _ _ _ Hc).
  - destruct (writeReport_created P inputDir outputDir (errors b) (world b) Hc)
      as (Hopened & _ & Hh & _).
    destruct (writeReport P inputDir outputDir (errors b) (world b)) as [w2 opened].
    simpl in *. subst opened. simpl. rewrite Hh. set_solver.
Qed.

Lemma loopStart_rest inputDir outputDir n w :
  files (loopStart inputDir outputDir n w) = files w
  ∧ handles (loopStart inputDir outputDir n w) = handles w.
Proof. unfold loopStart. by destruct (needsMkdir inputDir outputDir). Qed.

(** X10: a batch run changes no file but the destinations of the eligible
    files and the report. *)
Theorem convertDirectory_touches_only_outputs inputDir outputDir w path :
  (∀ entries f,
     read_dir P w inputDir = inl entries → In f (listWebpFiles entries) →
     path ≠ outputPathOf P inputDir outputDir f) →
  path ≠ reportPathOf P inputDir outputDir →
  files (fst (convertDirectory P inputDir outputDir w)) !! path = files w !! path.
Proof.
  intros Hout Hreport.
  pose proof (convertDirectory_inv P inputDir outputDir w) as Hinv. cbv zeta in Hinv.
  destruct (convertDirectory P inputDir outputDir w) as [w' [e |]]; simpl in *.
  - by destruct Hinv as [(err & _ & _ & ->) | (entries & err & _ & _ & ->)].
  - destruct Hinv as (entries & Hread & [[_ ->] | [_ ->]]); [done |].
    rewrite batchEnd_frame by done. unfold processAll.
    rewrite loop_frame by eauto. simpl.
    by rewrite (proj1 (loopStart_rest _ _ _ _)).
Qed.

(** X11: a batch run leaves no handle open that was not open before it:
    every destination and the report are closed by the time it returns,
    with or without an error. *)
Theorem convertDirectory_releases_handles inputDir outputDir w :
  handles (fst (convertDirectory P inputDir outputDir w)) ⊆ handles w.
Proof.
  pose proof (convertDirectory_inv P inputDir outputDir w) as Hinv. cbv zeta in Hinv.
  destruct (convertDirectory P inputDir outputDir w) as [w' [e |]]; simpl in *.
  - by destruct Hinv as [(err & _ & _ & ->) | (entries & err & _ & _ & ->)].
  - destruct Hinv as (entries & Hread & [[_ ->] | [_ ->]]); [done |].
    etransitivity; [apply batchEnd_handles |]. unfold processAll.
    etransitivity; [apply loop_handles |]. simpl.
    by rewrite (proj2 (loopStart_rest _ _ _ _)).
Qed.

End BatchMore.

(** ** The stages of a batch run, seen from outside *)

Section BatchStages.
Context {image : Type} (P : Platform image).
Implicit Types (w : World) (b : Batch) (inputDir outputDir webpFile : string).

Lemma no_eligible entries :
  (∀ entry, In entry entries → ¬ Eligible entry) → listWebpFiles entries = [].
Proof.
  intros Hno. unfold listWebpFiles. rewrite fold_collect. simpl.
  induction entries as [|entry rest IH]; [done |].
  rewrite filter_cons. destruct (decide (Eligible entry)) as [He | _].
  - destruct (Hno entry); [by left | done].
  - apply IH. intros e He. apply Hno. by right.
Qed.

Lemma needsMkdir_true inputDir outputDir :
  needsMkdir inputDir outputDir = true ↔ outputDir ≠ "" ∧ outputDir ≠ inputDir.
Proof.
  unfold needsMkdir. rewrite andb_true_iff, !negb_true_iff.
  by rewrite !String.eqb_neq.
Qed.

(** The calls of a batch run that got to its second loop, the making of
    the output directory told apart. *)
Lemma batch_calls_mkdir inputDir outputDir webpFiles w :
  let b := processAll P inputDir outputDir webpFiles
             (loopStart inputDir outputDir (length webpFiles) w) in
  ∃ d, since w (batchEnd P inputDir outputDir (length webpFiles) b)
       = (ReadDir inputDir, true)
           :: (if needsMkdir inputDir outputDir then [(MkdirAll outputDir, true)] else [])
           ++ d
       ∧ Forall (λ e, fileCall e.1 = true) d.
Proof.
  intros b.
  destruct (loop_calls P inputDir outputDir webpFiles
              (mkBatch (loopStart inputDir outputDir (length webpFiles) w) [] 0))
    as (d & Hd & Hfile & _).
  destruct (batchEnd_log P inputDir outputDir (length webpFiles) b) as (t & Ht & Hfile').
  exists (d ++ t). split; [| by apply Forall_app].
  apply since_app. rewrite Ht. subst b. unfold processAll. rewrite Hd. simpl.
  unfold loopStart. destruct (needsMkdir inputDir outputDir); simpl;
    by rewrite <- !app_assoc.
Qed.

(** X12: when the listing holds no eligible entry (an empty directory
    included), a batch run returns no error after the listing alone: it
    prints that nothing was found, makes no output directory even when one
    is named, and touches no file. *)
Theorem convertDirectory_nothing_to_convert inputDir outputDir w entries :
  read_dir P w inputDir = inl entries →
  (∀ entry, In entry entries → ¬ Eligible entry) →
  let run := convertDirectory P inputDir outputDir w in
  snd run = None
  ∧ since w (fst run) = [(ReadDir inputDir, true)]
  ∧ files (fst run) = files w ∧ dirs (fst run) = dirs w
  ∧ stderr (fst run) = stderr w
  ∧ stdout (fst run)
    = stdout w ++ ["WebP файлы не найдены в директории: " +:+ inputDir +:+ nl].
Proof.
  intros Hread Hno run. subst run.
  rewrite (convertDirectory_none P _ _ _ _ Hread (no_eligible _ Hno)). simpl.
  split_and!; try done. by apply since_app.
Qed.

(** X13: the output directory is made exactly when the listing succeeds
    with an eligible file and the output directory is named and is not the
    input directory; it is then the second call of the run, right after
    the listing, and no other directory is ever made. *)
Theorem convertDirectory_mkdir_when_needed inputDir outputDir w :
  let calls := since w (fst (convertDirectory P inputDir outputDir w)) in
  ((∃ ok, In (MkdirAll outputDir, ok) calls)
   ↔ ∃ entries, read_dir P w inputDir = inl entries ∧ listWebpFiles entries ≠ []
                ∧ outputDir ≠ "" ∧ outputDir ≠ inputDir)
  ∧ (∀ path ok,
       In (MkdirAll path, ok) calls →
       path = outputDir
       ∧ ∃ rest, calls = (ReadDir inputDir, true) :: (MkdirAll outputDir, ok) :: rest).
Proof.
  intros calls. subst calls.
  destruct (read_dir P w inputDir) as [entries | err] eqn:Hread.
  2: { rewrite (convertDirectory_unlisted P _ _ _ _ Hread). simpl.
       rewrite (since_app w _ [(ReadDir inputDir, false)]) by done.
       split; [split |].
       - intros [ok Hin]. by in_cases Hin.
       - by intros (entries & ? & _).
       - intros path ok Hin. by in_cases Hin. }
  destruct (decide (listWebpFiles entries = [])) as [Hnone | Hsome].
  { rewrite (convertDirectory_none P _ _ _ _ Hread Hnone). simpl.
    rewrite (since_app w _ [(ReadDir inputDir, true)]) by done.
    split; [split |].
    - intros [ok Hin]. by in_cases Hin.
    - intros (entries' & [= <-] & Hne & _). done.
    - intros path ok Hin. by in_cases Hin. }
  destruct (needsMkdir inputDir outputDir) eqn:Hn.
  - pose proof (proj1 (needsMkdir_true _ _) Hn) as [Hne1 Hne2].
    destruct (mkdir_fault P (listed inputDir (length (listWebpFiles entries)) w) outputDir)
      as [err |] eqn:Hm.
    + rewrite (convertDirectory_unmade P _ _ _ _ _ Hread Hsome Hn Hm). simpl.
      rewrite (since_app w _ [(ReadDir inputDir, true); (MkdirAll outputDir, false)])
        by (simpl; by rewrite <- app_assoc).
      split; [split |].
      * intros _. by exists entries.
      * intros _. exists false. simpl. auto.
      * intros path ok Hin. in_cases Hin. split; [done |]. by exists [].
    + rewrite (convertDirectory_batch P _ _ _ _ Hread Hsome (λ _, Hm)). simpl.
      destruct (batch_calls_mkdir inputDir outputDir (listWebpFiles entries) w)
        as (d & -> & Hd). rewrite Hn. simpl.
      split; [split |].
      * intros _. by exists entries.
      * intros _. exists true. auto.
      * intros path ok [Hin | [Hin | Hin]]; simplify_eq.
        { split; [done |]. by exists d. }
        rewrite List.Forall_forall in Hd. by specialize (Hd _ Hin).
  - assert (¬ (outputDir ≠ "" ∧ outputDir ≠ inputDir)) as Hnot.
    { intros H%needsMkdir_true. congruence. }
    rewrite (convertDirectory_batch P _ _ _ _ Hread Hsome); [| by rewrite Hn].
    simpl.
    destruct (batch_calls_mkdir inputDir outputDir (listWebpFiles entries) w)
      as (d & -> & Hd). rewrite Hn. simpl. rewrite List.Forall_forall in Hd.
    split; [split |].
    + intros [ok [Hin | Hin]]; [done |]. by specialize (Hd _ Hin).
    + intros (entries' & _ & _ & H1 & H2). by destruct Hnot.
    + intros path ok [Hin | Hin]; [done |]. by specialize (Hd _ Hin).
Qed.

(** What one step of the second loop prints. *)
Lemma processFile_prints inputDir outputDir b webpFile :
  let b' := processFile P inputDir outputDir b webpFile in
  (errors b' = errors b ∧ successCount b' = successCount b + 1
   ∧ stderr (world b') = stderr (world b)
   ∧ stdout (world b')
     = stdout (world b)
       ++ ["✓ Конвертировано: " +:+ webpFile +:+ " -> " +:+ pngNameOf webpFile +:+ nl])
  ∨ (∃ msg,
       errors b' = errors b ++ [mkConversionError webpFile msg]
       ∧ successCount b' = successCount b
       ∧ stdout (world b') = stdout (world b)
       ∧ (stderr (world b') = stderr (world b) ++ [msg +:+ nl]
          ∨ stderr (world b') = stderr (world b) ++ ["Ошибка: " +:+ msg +:+ nl])).
Proof.
  unfold processFile.
  destruct (convert_quiet P (filepath_Join P inputDir webpFile)
              (outputPathOf P inputDir outputDir webpFile) (world b)) as (Hout & Herr & _).
  destruct (convertWebPToPNG _ _ _ _) as [w1 [err |]]; simpl in *.
  { right. eexists. rewrite Hout, Herr. eauto. }
  unfold os_Stat, os_Remove. each_path; rewrite Hout, Herr;
    first [ by left | right; eexists; by eauto 6 ].
Qed.

(** X14: every file of the second loop is told of: a success adds its
    notice to the standard output and nothing to the error stream, a
    failure adds to the error stream one line that carries the message
    recorded for the report, and nothing to the standard output.  So the
    lines added to the error stream match the failures one to one and in
    order, and the notices are as many as the successes counted. *)
Theorem batch_diagnostics inputDir outputDir webpFiles w :
  let b := processAll P inputDir outputDir webpFiles w in
  (∃ lines,
     stderr (world b) = stderr w ++ lines
     ∧ Forall2 (λ line e, line = errorMsg e +:+ nl
                          ∨ line = "Ошибка: " +:+ errorMsg e +:+ nl)
         lines (errors b))
  ∧ (∃ notices,
       stdout (world b) = stdout w ++ notices
       ∧ length notices = successCount b
       ∧ Forall (λ line, ∃ f, In f webpFiles
                   ∧ line = "✓ Конвертировано: " +:+ f +:+ " -> "
                            +:+ pngNameOf f +:+ nl) notices).
Proof.
  intros b. subst b. unfold processAll.
  cut (∀ b0,
    let b := fold_left (processFile P inputDir outputDir) webpFiles b0 in
    ∃ lines es notices,
      stderr (world b) = stderr (world b0) ++ lines
      ∧ errors b = errors b0 ++ es
      ∧ Forall2 (λ line e, line = errorMsg e +:+ nl
                           ∨ line = "Ошибка: " +:+ errorMsg e +:+ nl) lines es
      ∧ stdout (world b) = stdout (world b0) ++ notices
      ∧ successCount b = successCount b0 + length notices
      ∧ Forall (λ line, ∃ f, In f webpFiles
                  ∧ line = "✓ Конвертировано: " +:+ f +:+ " -> "
                           +:+ pngNameOf f +:+ nl) notices).
  { intros H. destruct (H (mkBatch w [] 0))
      as (lines & es & notices & Herr & Hes & Hall & Hout & Hcount & Hnot).
    simpl in *. subst es. split; [by exists lines |]. exists notices.
    rewrite Hcount. done. }
  induction webpFiles as [|f rest IH]; intros b0; simpl.
  { exists [], [], []. rewrite !app_nil_r, Nat.add_0_r.
    repeat split; constructor. }
  destruct (IH (processFile P inputDir outputDir b0 f))
    as (lines & es & notices & Herr & Hes & Hall & Hout & Hcount & Hnot).
  assert (Forall (λ line, ∃ g, (f = g ∨ In g rest)
            ∧ line = "✓ Конвертировано: " +:+ g +:+ " -> " +:+ pngNameOf g +:+ nl)
            notices) as Hnot'.
  { eapply Forall_impl; [exact Hnot |]. intros line (g & Hg & ->). exists g. auto. }
  destruct (processFile_prints inputDir outputDir b0 f)
    as [(He & Hs & Hse & Hso) | (msg & He & Hs & Hso & Hse)].
  - exists lines, es,
      (("✓ Конвертировано: " +:+ f +:+ " -> " +:+ pngNameOf f +:+ nl) :: notices).
    rewrite Herr, Hes, Hout, Hcount, He, Hs, Hse, Hso, <- app_assoc.
    repeat split; try done; [simpl; lia |].
    constructor; [| done]. exists f. auto.
  - assert (∃ line,
              stderr (world (processFile P inputDir outputDir b0 f))
              = stderr (world b0) ++ [line]
              ∧ (line = msg +:+ nl ∨ line = "Ошибка: " +:+ msg +:+ nl))
      as (line & Hline & Hform) by (destruct Hse; eauto).
    exists (line :: lines), (mkConversionError f msg :: es), notices.
    rewrite Herr, Hes, Hout, Hcount, He, Hs, Hso, Hline, <- !app_assoc.
    repeat split; try done. by constructor.
Qed.

End BatchStages.

(** ** The reads of a batch run *)

Lemma since_trans w w1 w2 d1 d2 :
  log w1 = log w ++ d1 → log w2 = log w1 ++ d2 → since w w2 = d1 ++ d2.
Proof. intros H1 H2. apply since_app. by rewrite H2, H1, <- app_assoc. Qed.

Lemma readsOf_app c1 c2 : readsOf (c1 ++ c2) = readsOf c1 ++ readsOf c2.
Proof. apply omap_app. Qed.

Section BatchReads.
Context {image : Type} (P : Platform image).
Implicit Types (w : World) (b : Batch) (inputDir outputDir webpFile : string).

Lemma convert_reads inputPath outputPath w :
  ∃ d, log (fst (convertWebPToPNG P inputPath outputPath w)) = log w ++ d
       ∧ readsOf d = [inputPath].
Proof.
  unfold_calls. each_path; rewrite <- ?app_assoc; cbn [app]; by eexists.
Qed.

Lemma processFile_reads inputDir outputDir b webpFile :
  ∃ d, log (world (processFile P inputDir outputDir b webpFile)) = log (world b) ++ d
       ∧ readsOf d = [filepath_Join P inputDir webpFile].
Proof.
  unfold processFile.
  destruct (convert_reads (filepath_Join P inputDir webpFile)
              (outputPathOf P inputDir outputDir webpFile) (world b)) as (d & Hlog & Hd).
  destruct (convertWebPToPNG _ _ _ _) as [w1 [err |]]; simpl in *.
  { by exists d. }
  unfold os_Stat, os_Remove. each_path; rewrite Hlog, <- ?app_assoc;
    eexists; (split; [reflexivity |]); by rewrite readsOf_app, Hd.
Qed.

Lemma loop_reads inputDir outputDir webpFiles : ∀ b,
  ∃ d, log (world (fold_left (processFile P inputDir outputDir) webpFiles b))
       = log (world b) ++ d
       ∧ readsOf d = filepath_Join P inputDir <$> webpFiles.
Proof.
  induction webpFiles as [|f rest IH]; intros b; simpl.
  - exists []. by rewrite app_nil_r.
  - destruct (IH (processFile P inputDir outputDir b f)) as (d & Hlog & Hd).
    destruct (processFile_reads inputDir outputDir b f) as (d0 & Hlog0 & Hd0).
    exists (d0 ++ d). rewrite Hlog, Hlog0, <- app_assoc. split; [done |].
    by rewrite readsOf_app, Hd0, Hd.
Qed.

(** X15: a batch run that is not aborted reads each eligible file exactly
    once, in the order of the listing, and reads nothing else; a run that
    is aborted reads nothing. *)
Theorem convertDirectory_reads_each_once inputDir outputDir w :
  let run := convertDirectory P inputDir outputDir w in
  (∀ entries,
     read_dir P w inputDir = inl entries → snd run = None →
     readsOf (since w (fst run)) = filepath_Join P inputDir <$> listWebpFiles entries)
  ∧ (is_Some (snd run) → readsOf (since w (fst run)) = []).
Proof.
  intros run.
  pose proof (convertDirectory_inv P inputDir outputDir w) as Hinv. cbv zeta in Hinv.
  fold run in Hinv. destruct run as [w' [e |]]; simpl in *.
  - split; [done |]. intros _.
    destruct Hinv as [(err & _ & _ & ->) | (entries & err & _ & _ & ->)].
    + by rewrite (since_app w _ [(ReadDir inputDir, false)]).
    + erewrite since_app; [| simpl; by rewrite <- app_assoc]. done.
  - split; [| by intros [? [=]]]. intros entries Hread _.
    destruct Hinv as (entries' & Hread' & [[Hnone ->] | [Hsome ->]]);
      assert (entries' = entries) as -> by congruence.
    + rewrite Hnone. by rewrite (since_app w _ [(ReadDir inputDir, true)]).
    + destruct (loopStart_log inputDir outputDir (length (listWebpFiles entries)) w)
        as (mk & Hs & Hmk & _).
      destruct (loop_reads inputDir outputDir (listWebpFiles entries)
                  (mkBatch (loopStart inputDir outputDir
                              (length (listWebpFiles entries)) w) [] 0))
        as (d & Hd & Hreads).
      destruct (batchEnd_cases P inputDir outputDir (length (listWebpFiles entries))
                  (processAll P inputDir outputDir (listWebpFiles entries)
                     (loopStart inputDir outputDir (length (listWebpFiles entries)) w)))
        as (_ & Hend).
      cbv zeta in Hend. unfold processAll in *. simpl in Hd.
      assert (readsOf mk = []) as Hmk'.
      { clear -Hmk. induction Hmk as [|e l -> _ IH]; [done | exact IH]. }
      destruct Hend as [(_ & Hlog & _) | [(_ & err & _ & Hlog & _) | (_ & _ & Hlog & _)]].
      * erewrite since_app; [| by rewrite Hlog, Hd, Hs, <- app_assoc].
        simpl. by rewrite readsOf_app, Hmk', Hreads.
      * erewrite since_app; [| by rewrite Hlog, Hd, Hs, <- !app_assoc].
        simpl. by rewrite !readsOf_app, Hmk', Hreads, app_nil_r.
      * erewrite since_app; [| by rewrite Hlog, Hd, Hs, <- !app_assoc].
        simpl. by rewrite !readsOf_app, Hmk', Hreads, app_nil_r.
Qed.

End BatchReads.

(** ** More runs on the sample platform *)

(** A path that does not exist. *)
Lemma main_rejects_bad_input_sample :
  snd (main sound "tool" ["nowhere.webp"] threeFiles) = 1
  ∧ files (fst (main sound "tool" ["nowhere.webp"] threeFiles)) = files threeFiles.
Proof.
  destruct (main_rejects_bad_input sound "tool" threeFiles) as [_ Hstat].
  destruct (Hstat "nowhere.webp" [] (PathError "stat" "nowhere.webp" ENOENT) eq_refl)
    as (Hstatus & _ & Hfiles & _).
  by split.
Defined.

(** An encoder that writes nothing: the single-file path still succeeds. *)
Lemma main_single_file_sample :
  let run := main (platform silent listing never) "tool" ["in/a.webp"] threeFiles in
  snd run = 0 ∧ files (fst run) !! "in/a.png" = Some [].
Proof.
  intros run.
  destruct (main_single_file (platform silent listing never) "tool" "in/a.webp" []
              threeFiles (mkFileInfo 7 false) eq_refl eq_refl)
    as (Hstatus & _ & _ & Hfiles & _).
  split; [by apply Hstatus |]. unfold run. by rewrite Hfiles.
Defined.

(** One file of three fails: the status is 0. *)
Lemma main_directory_sample :
  snd (main sound "tool" ["in"] threeFilesIn) = 0.
Proof.
  destruct (main_directory sound "tool" "in" [] threeFilesIn (mkFileInfo 0 true)
              eq_refl eq_refl) as (Hstatus & _).
  by apply Hstatus.
Defined.

Lemma convertDirectory_touches_only_outputs_sample :
  files (fst (convertDirectory sound "in" "" threeFiles)) !! "in/c.webp" = Some textBytes.
Proof.
  rewrite (convertDirectory_touches_only_outputs sound "in" "" threeFiles "in/c.webp").
  - reflexivity.
  - intros entries f [= <-] Hin. vm_compute in Hin.
    destruct Hin as [<- | [<- | [<- | []]]]; discriminate.
  - discriminate.
Defined.

(** A directory that holds nothing to convert, and an output directory
    that is never made. *)
Lemma convertDirectory_nothing_to_convert_sample :
  let run := convertDirectory (platform png [mkDirEntry "notes.txt" false;
                                              mkDirEntry "old.webp" true] never)
               "in" "out" threeFiles in
  snd run = None ∧ since threeFiles (fst run) = [(ReadDir "in", true)].
Proof.
  intros run.
  destruct (convertDirectory_nothing_to_convert
              (platform png [mkDirEntry "notes.txt" false; mkDirEntry "old.webp" true] never)
              "in" "out" threeFiles _ eq_refl) as (Hnil & Hcalls & _).
  - intros entry [<- | [<- | []]] He%eligibleb_spec; discriminate.
  - by split.
Defined.

Lemma convertDirectory_reads_each_once_sample :
  readsOf (since threeFiles (fst (convertDirectory sound "in" "out" threeFiles)))
  = ["in/a.webp"; "in/b.WEBP"; "in/c.webp"].
Proof.
  destruct (convertDirectory_reads_each_once sound "in" "out" threeFiles) as [Hreads _].
  rewrite (Hreads listing eq_refl eq_refl). reflexivity.
Defined.
